(** * scaffold.py: artifact extraction and tree resolution

    A shallow embedding of [src/scaffold.py].  The two functions of
    interest are [extract_artifacts_from_markdown] (a line scanner that
    recovers a mapping from file path to code text) and
    [create_project_from_yaml] (a walk over a declared tree that picks the
    content of every declared file).

    Python strings are sequences of Unicode code points, so a string is a
    list of code points ([N]); the version separator of the headers is
    U+2219, which is not an ASCII character.  A Python [dict] keeps its
    keys in insertion order and the suffix match of the resolver iterates
    over it, so the artifact mapping is an association list with the
    update discipline of [dict.__setitem__].  Only the non-verbose
    behaviour is modelled: [verbose] adds [[DEBUG]] lines to the standard
    output and changes nothing else. *)

From Stdlib Require Import Ascii String.
From Stdlib Require Import List NArith Bool Arith Lia.
Import ListNotations.

Set Implicit Arguments.

(** ** Python strings *)

Module Py.

Definition char := N.
Definition str := list char.

(** An ASCII literal as a Python string. *)
Definition lit (s : string) : str := map N_of_ascii (list_ascii_of_string s).

Definition star : char := 42%N.       (* '*' *)
Definition dot : char := 46%N.        (* '.' *)
Definition slash : char := 47%N.      (* '/' *)
Definition backslash : char := 92%N.  (* '\\' *)
Definition backtick : char := 96%N.   (* '`' *)
Definition newline : char := 10%N.    (* '\n' *)
Definition bullet : char := 8729%N.   (* U+2219, the version separator *)

Fixpoint str_eqb (a b : str) : bool :=
  match a, b with
  | [], [] => true
  | x :: a', y :: b' => N.eqb x y && str_eqb a' b'
  | _, _ => false
  end.

(** The characters removed by [str.strip()] when called without argument. *)
Definition is_space (c : char) : bool :=
  ((9 <=? c) && (c <=? 13) || (28 <=? c) && (c <=? 32)
   || (c =? 133) || (c =? 160) || (c =? 5760)
   || (8192 <=? c) && (c <=? 8202)
   || (c =? 8232) || (c =? 8233) || (c =? 8239) || (c =? 8287)
   || (c =? 12288))%N.

Fixpoint lstrip (s : str) : str :=
  match s with
  | [] => []
  | c :: s' => if is_space c then lstrip s' else s
  end.

Definition rstrip (s : str) : str := rev (lstrip (rev s)).

Definition strip (s : str) : str := rstrip (lstrip s).

(** [s.startswith(p)] *)
Fixpoint startswith (p s : str) : bool :=
  match p, s with
  | [], _ => true
  | x :: p', y :: s' => N.eqb x y && startswith p' s'
  | _ :: _, [] => false
  end.

(** [s.endswith(suf)] *)
Definition endswith (s suf : str) : bool :=
  (length suf <=? length s) && str_eqb (skipn (length s - length suf) s) suf.

(** [s.split(sep)[0]] for a non-empty separator: the text before the
    leftmost occurrence of [sep], or all of [s] when there is none. *)
Fixpoint split_first (sep s : str) : str :=
  match s with
  | [] => []
  | c :: s' => if startswith sep s then [] else c :: split_first sep s'
  end.

(** [c in s] for a one-character string [c]. *)
Definition contains (c : char) (s : str) : bool := existsb (N.eqb c) s.

(** [s.replace(a, b)] for one-character strings [a] and [b]. *)
Definition replace (a b : char) (s : str) : str :=
  map (fun c => if N.eqb c a then b else c) s.

(** [sep.join(parts)] *)
Fixpoint join (sep : str) (parts : list str) : str :=
  match parts with
  | [] => []
  | [p] => p
  | p :: rest => p ++ sep ++ join sep rest
  end.

(** [f.readlines()] on a text, as it is after Python's newline
    translation: the lines, each with its terminating newline (the last
    one has none when the text does not end in one). *)
Fixpoint readlines_aux (cur : str) (text : str) : list str :=
  match text with
  | [] => match cur with [] => [] | _ => [rev cur] end
  | c :: text' =>
      if N.eqb c newline then rev (c :: cur) :: readlines_aux [] text'
      else readlines_aux (c :: cur) text'
  end.

Definition readlines (text : str) : list str := readlines_aux [] text.

End Py.

Import Py.

(** ** Ordered dictionaries *)

Definition dict := list (str * str).

(** [d[k]] ([None] stands for [KeyError]) *)
Fixpoint dict_get (k : str) (d : dict) : option str :=
  match d with
  | [] => None
  | (k', v) :: d' => if str_eqb k' k then Some v else dict_get k d'
  end.

(** [k in d] *)
Definition dict_mem (k : str) (d : dict) : bool :=
  match dict_get k d with Some _ => true | None => false end.

(** [d[k] = v]: an existing key keeps its place, a new one goes last. *)
Fixpoint dict_set (k v : str) (d : dict) : dict :=
  match d with
  | [] => [(k, v)]
  | (k', v') :: d' =>
      if str_eqb k' k then (k', v) :: d' else (k', v') :: dict_set k v d'
  end.

(** The keys in iteration order. *)
Definition dict_keys (d : dict) : list str := map fst d.

(** ** Standard output *)

Inductive source :=
| SrcEmpty                          (* "empty" *)
| SrcArtifact                       (* "artifact" *)
| SrcArtifactMatched (key : str)    (* "artifact (matched on '<key>')" *)
| SrcYamlContent                    (* "YAML content" *)
| SrcTemplate (template : str)      (* "template '<template>'" *)
| SrcTemplateNotFound.              (* "template (not found)" *)

Inductive message :=
| MarkdownNotFound (markdown_path : str)
| MarkdownReadError (markdown_path : str)
| FoundArtifact (normalized_path : str) (is_versioned : bool)
| CreatingDirectory (rel : str)
| TemplateNotFound (template_path : str)
| TemplateReadError (template_path : str)
| CreatedFile (relative_path_str : str) (src : source)
| ErrorCreatingFile (file_path : str).

(** What opening and reading a file can do. *)
Inductive read_outcome (A : Type) :=
| ReadOk (a : A)
| ReadNotFound          (* FileNotFoundError *)
| ReadFailed.           (* any other Exception *)
Arguments ReadNotFound {A}.
Arguments ReadFailed {A}.

(** ** The artifact extractor *)

(** [FILE_PATH_PATTERN.match(line)]: the line opens with two stars, then
    comes a non-empty run of characters other than a star (group 1; it
    cannot hold a star, so lazy or not it is the whole run), then two
    stars. *)
Fixpoint star_free_run (s : str) : str * str :=
  match s with
  | [] => ([], [])
  | c :: s' =>
      if N.eqb c star then ([], s)
      else let (g, rest) := star_free_run s' in (c :: g, rest)
  end.

Definition FILE_PATH_PATTERN_match (line : str) : option str :=
  match line with
  | a :: b :: body =>
      if N.eqb a star && N.eqb b star then
        match star_free_run body with
        | (c :: g, x :: y :: _) =>
            if N.eqb x star && N.eqb y star then Some (c :: g) else None
        | _ => None
        end
      else None
  | _ => None
  end.

Definition fence : str := [backtick; backtick; backtick].

(** [CODE_BLOCK_PATTERN.match(line)]: three backticks at the start of the
    line, then a group of word characters that may be empty, so the match
    succeeds exactly on the lines that open with three backticks. *)
Definition CODE_BLOCK_PATTERN_match (line : str) : bool := startswith fence line.

Definition is_header_candidate (raw : str) : bool :=
  match FILE_PATH_PATTERN_match (strip raw) with Some _ => true | None => false end.

Definition is_fence (raw : str) : bool := CODE_BLOCK_PATTERN_match (strip raw).

(** The loop over [j]: [rest] is [lines[j:]].  [Some j] is the index of
    the line that opens the code block; [None] is a search that ended on
    another header or on the end of the document. *)
Fixpoint find_fence (rest : list str) (j : nat) : option nat :=
  match rest with
  | [] => None
  | l :: rest' =>
      let code_line := strip l in
      if CODE_BLOCK_PATTERN_match code_line then Some j
      else match FILE_PATH_PATTERN_match code_line with
           | Some _ => None
           | None => find_fence rest' (S j)
           end
  end.

(** The loop over [k]: [rest] is [lines[k:]].  Returns [code_content] and
    the final [k]. *)
Fixpoint collect (rest : list str) (k : nat) : list str * nat :=
  match rest with
  | [] => ([], k)
  | l :: rest' =>
      if startswith fence (strip l) then ([], k)
      else let (code_content, k') := collect rest' (S k) in
           (l :: code_content, k')
  end.

Record ex_state := { artifacts : dict; stdout : list message }.

(** Steps 2 and 3 on the captured header text: the candidate path. *)
Definition candidate_path (raw_header : str) : str :=
  let header_text := strip (split_first [bullet] raw_header) in
  strip (split_first (lit " - ") header_text).

Definition is_valid_path (file_path_str : str) : bool :=
  contains dot file_path_str || contains slash file_path_str
  || contains backslash file_path_str.

(** One turn of the outer [while] at index [i], where [raw] is
    [lines[i]].  Returns the value of [i] just before the final
    [i += 1], and the new state. *)
Definition visit (lines : list str) (i : nat) (raw : str) (st : ex_state)
  : nat * ex_state :=
  let line := strip raw in
  match FILE_PATH_PATTERN_match line with
  | Some raw_header =>
      let is_versioned := contains bullet raw_header in
      let file_path_str := candidate_path raw_header in
      if negb (is_valid_path file_path_str) then (i, st)
      else
        match find_fence (skipn (S i) lines) (S i) with
        | Some j =>
            let (code_content, k) := collect (skipn (S j) lines) (S j) in
            let normalized_path := replace backslash slash file_path_str in
            (k, {| artifacts :=
                     dict_set normalized_path (join [] code_content)
                              (artifacts st);
                   stdout :=
                     stdout st ++ [FoundArtifact normalized_path is_versioned] |})
        | None => (i, st)
        end
  | None => (i, st)
  end.

(** The outer [while i < len(lines)].  Every turn moves [i] forward, so
    [length lines - i] turns are enough; see [scan_enough]. *)
Fixpoint scan (fuel : nat) (lines : list str) (i : nat) (st : ex_state)
  : ex_state :=
  match fuel with
  | O => st
  | S fuel' =>
      match nth_error lines i with
      | None => st
      | Some raw =>
          let (i', st') := visit lines i raw st in
          scan fuel' lines (S i') st'
      end
  end.

Definition run (lines : list str) (i : nat) (st : ex_state) : ex_state :=
  scan (length lines - i) lines i st.

Definition extract_lines (lines : list str) : ex_state :=
  run lines 0 {| artifacts := []; stdout := [] |}.

Definition extract_artifacts_from_markdown
    (markdown_path : str) (opened : read_outcome (list str))
  : dict * list message :=
  match opened with
  | ReadOk lines =>
      let st := extract_lines lines in (artifacts st, stdout st)
  | ReadNotFound => ([], [MarkdownNotFound markdown_path])
  | ReadFailed => ([], [MarkdownReadError markdown_path])
  end.

(** [main]'s gate after the extraction: [true] is the early return
    "nothing to do", taken when there is no artifact and no usable YAML
    structure file. *)
Definition main_nothing_to_do (found : dict) (yaml_exists : bool) : bool :=
  match found with [] => negb yaml_exists | _ :: _ => false end.

(** ** The tree resolver *)

(** The value under the ['content'] key of a file entry. *)
Inductive yaml_text := YNull | YText (s : str).

(** An element of a [structure] list.  [Dict] carries what the code reads
    from a mapping: the optional keys [directory], [file], [content] and
    [template], and [children] (absent, null and empty all skip the
    recursion, so they are the empty list). *)
#[warnings="-register-all"]
Inductive item :=
| NotADict
| Dict (directory : option str) (children : list item) (file : option str)
       (content : option yaml_text) (template : option str).

(** The host: [pathlib] and the file system. *)
Record host := {
  Path : Type;
  World : Type;
  (* [p / name] *)
  joinpath : Path -> str -> Path;
  (* [str(p)], as an f-string shows a path *)
  path_str : Path -> str;
  (* [str(p.relative_to(base))]; [None] is the [ValueError] *)
  relative_to : Path -> Path -> option str;
  (* [p.mkdir(exist_ok=True)]; [None] is an exception *)
  mkdir : World -> Path -> option World;
  (* [open(p, 'r').read()] *)
  read_text : World -> Path -> read_outcome str;
  (* [p.parent.mkdir(parents=True, exist_ok=True)], then [open(p, 'w')]
     and the write; [false] is an exception (caught by the caller) *)
  write_text : World -> Path -> str -> World * bool
}.

(** The [for key in artifacts] loop of the suffix match. *)
Fixpoint suffix_loop (keys : list str) (found : dict) (R : str)
  : option str * source :=
  match keys with
  | [] => (None, SrcEmpty)
  | key :: keys' =>
      if endswith R key && (str_eqb R key || endswith R (slash :: key))
      then (dict_get key found, SrcArtifactMatched key)
      else suffix_loop keys' found R
  end.

(** The artifact lookup: [content] ([None] is Python's [None]) and
    [source] as they stand when the fallback section is reached. *)
Definition lookup_artifact (found : dict) (R : str) : option str * source :=
  if dict_mem R found then (dict_get R found, SrcArtifact)
  else suffix_loop (dict_keys found) found R.

(** Lookup and fallback for one file entry; [template_path t] is the text
    of [base_dir / t] and [read t] opens and reads that file.  Returns
    [content], [source] and what is printed on the way. *)
Definition resolve_file (found : dict) (R : str)
    (content : option yaml_text) (template : option str)
    (template_path : str -> str) (read : str -> read_outcome str)
  : option str * source * list message :=
  let (c, src) := lookup_artifact found R in
  match c with
  | Some _ => (c, src, [])
  | None =>
      match content with
      | Some y =>
          (match y with YNull => None | YText s => Some s end,
           SrcYamlContent, [])
      | None =>
          match template with
          | Some t =>
              match read t with
              | ReadOk text => (Some text, SrcTemplate t, [])
              | ReadNotFound =>
                  (None, SrcTemplateNotFound, [TemplateNotFound (template_path t)])
              | ReadFailed => (None, src, [TemplateReadError (template_path t)])
              end
          | None => (None, src, [])
          end
      end
  end.

(** [source == "empty"] *)
Definition source_is_empty (src : source) : bool :=
  match src with SrcEmpty => true | _ => false end.

(** What reaches the file: [if content: f.write(content)]. *)
Definition written_text (c : option str) : str :=
  match c with Some text => text | None => [] end.

Section Resolver.

Variable H : host.

Record rs_state := {
  world : World H;
  empty_files : list str;
  console : list message
}.

Section ForEach.

Variable body : item -> rs_state -> rs_state * bool.

(** [for item in structure]; [false] is an exception that left the
    loop. *)
Fixpoint for_each (structure : list item) (st : rs_state)
  : rs_state * bool :=
  match structure with
  | [] => (st, true)
  | it :: rest =>
      let (st', ok) := body it st in
      if ok then for_each rest st' else (st', false)
  end.

End ForEach.

Definition process_file (found : dict) (base_dir current_path : Path H)
    (file_name : str) (content : option yaml_text) (template : option str)
    (st : rs_state) : rs_state * bool :=
  let file_path := joinpath H current_path file_name in
  match relative_to H file_path base_dir with
  | None => (st, false)
  | Some rel =>
      let relative_path_str := replace backslash slash rel in
      let '(c, src, printed) :=
        resolve_file found relative_path_str content template
          (fun t => path_str H (joinpath H base_dir t))
          (fun t => read_text H (world st) (joinpath H base_dir t)) in
      let empty_files' :=
        if source_is_empty src then empty_files st ++ [relative_path_str]
        else empty_files st in
      let (w, ok) := write_text H (world st) file_path (written_text c) in
      ({| world := w;
          empty_files := empty_files';
          console :=
            console st ++ printed
            ++ [if ok then CreatedFile relative_path_str src
                else ErrorCreatingFile (path_str H file_path)] |}, true)
  end.

Fixpoint process_item (found : dict) (base_dir current_path : Path H)
    (it : item) (st : rs_state) {struct it} : rs_state * bool :=
  match it with
  | NotADict => (st, true)
  | Dict (Some dir_name) children _ _ _ =>
      let new_path := joinpath H current_path dir_name in
      match relative_to H new_path base_dir with
      | None => (st, false)
      | Some rel =>
          let st1 := {| world := world st;
                        empty_files := empty_files st;
                        console := console st ++ [CreatingDirectory rel] |} in
          match mkdir H (world st1) new_path with
          | None => (st1, false)
          | Some w =>
              for_each (process_item found base_dir new_path) children
                {| world := w;
                   empty_files := empty_files st1;
                   console := console st1 |}
          end
      end
  | Dict None _ (Some file_name) content template =>
      process_file found base_dir current_path file_name content template st
  | Dict None _ None _ _ => (st, true)
  end.

Definition create_project_from_yaml (structure : list item) (found : dict)
    (base_dir current_path : Path H) (st : rs_state) : rs_state * bool :=
  for_each (process_item found base_dir current_path) structure st.

End Resolver.

(** A small host to run the resolver on: paths are lists of components,
    printed with backslashes as on Windows; the world is the text of the
    files, keyed by path; nothing fails but reading a file that is not
    there. *)
Module WinHost.

Fixpoint strip_prefix (base p : list str) : option (list str) :=
  match base, p with
  | [], _ => Some p
  | b :: base', c :: p' => if str_eqb b c then strip_prefix base' p' else None
  | _ :: _, [] => None
  end.

Definition show (p : list str) : str := join [backslash] p.

Definition h : host := {|
  Path := list str;
  World := dict;
  joinpath := fun p name => p ++ [name];
  path_str := show;
  relative_to := fun p base => option_map show (strip_prefix base p);
  mkdir := fun w _ => Some w;
  read_text := fun w p =>
    match dict_get (show p) w with Some text => ReadOk text | None => ReadNotFound end;
  write_text := fun w p text => (dict_set (show p) text w, true)
|}.

(** The same host with files that exist but cannot be read. *)
Definition locked : host := {|
  Path := list str;
  World := dict;
  joinpath := fun p name => p ++ [name];
  path_str := show;
  relative_to := fun p base => option_map show (strip_prefix base p);
  mkdir := fun w _ => Some w;
  read_text := fun _ _ => ReadFailed;
  write_text := fun w p text => (dict_set (show p) text w, true)
|}.

Definition start : rs_state h :=
  {| world := ([] : World h); empty_files := []; console := [] |}.

Definition locked_start : rs_state locked :=
  {| world := ([] : World locked); empty_files := []; console := [] |}.

End WinHost.

(** A line of text with its terminating newline. *)
Definition ln (s : string) : str := lit s ++ [newline].

(** The positions the outer scan stops at, with the state it has there. *)
Inductive reaches (lines : list str) : nat -> ex_state -> Prop :=
| reaches_start :
    reaches lines 0 {| artifacts := []; stdout := [] |}
| reaches_next i raw st i' st' :
    reaches lines i st ->
    nth_error lines i = Some raw ->
    visit lines i raw st = (i', st') ->
    reaches lines (S i') st'.

(** The header and code block the scan sees at a line: normalized path,
    content, version flag and the index of the closing fence. *)
Definition block_at (lines : list str) (i : nat) (raw : str)
  : option (str * str * bool * nat) :=
  match FILE_PATH_PATTERN_match (strip raw) with
  | Some raw_header =>
      if is_valid_path (candidate_path raw_header) then
        match find_fence (skipn (S i) lines) (S i) with
        | Some j =>
            let (code_content, k) := collect (skipn (S j) lines) (S j) in
            Some (replace backslash slash (candidate_path raw_header),
                  concat code_content, contains bullet raw_header, k)
        | None => None
        end
      else None
  | None => None
  end.

(** [R] ends with [K] at a path-segment boundary. *)
Definition boundary_suffix (R K : str) : Prop :=
  R = K \/ exists pre, R = pre ++ slash :: K.

(** Documents used as concrete inputs below. *)
Definition doc_roundtrip : list str :=
  readlines (ln "**a/b.txt**" ++ ln "```" ++ ln "hello" ++ ln "```").

Definition doc_two_lines : list str :=
  [ln "**a.txt**"; ln "```"; ln "x"; ln "y"; ln "```"].

Definition doc_two_versions : list str :=
  [ln "**a.txt**"; ln "```"; ln "one"; ln "```";
   ln "**a.txt**"; ln "```"; ln "two"; ln "```"].

Definition doc_overview : list str :=
  [ln "**Overview**"; ln "```"; ln "code"; ln "```"].

Definition doc_no_fence : list str :=
  [ln "**a.txt**"; ln "some prose"; ln "**b.txt**"; ln "```"; ln "x"; ln "```"].

Definition doc_unclosed : list str :=
  [ln "**a.txt**"; ln ""; ln "```python"; ln "x"; lit "y"].

Definition doc_backslash : list str :=
  [ln "**src\util.py**"; ln "```"; ln "x"; ln "```"].

Definition empty_state : ex_state := {| artifacts := []; stdout := [] |}.

Unset Implicit Arguments.

(** The artifact the lookup settles on for [R]: the key [R] itself, or
    else the first key in iteration order of which [R] is a boundary-safe
    suffix. *)
Definition artifact_match (found : dict) (R K : str) : Prop :=
  (dict_mem R found = true /\ K = R)
  \/ (dict_mem R found = false
      /\ exists before after,
          dict_keys found = before ++ K :: after
          /\ Forall (fun key => ~ boundary_suffix R key) before
          /\ boundary_suffix R K).

(** The relative paths shown by the resolver use no backslash. *)
Definition message_path_ok (m : message) : Prop :=
  match m with
  | CreatedFile R _ => ~ In backslash R
  | _ => True
  end.

Definition normalized (H : host) (st : rs_state H) : Prop :=
  Forall (fun R => ~ In backslash R) (empty_files st)
  /\ Forall message_path_ok (console st).

(** Induction on items that reaches the children. *)
Fixpoint item_nested_ind (P : item -> Prop) (HN : P NotADict)
    (HD : forall d ch f c t, Forall P ch -> P (Dict d ch f c t))
    (it : item) : P it :=
  match it with
  | NotADict => HN
  | Dict d ch f c t =>
      HD d ch f c t
         ((fix all (l : list item) : Forall P l :=
             match l with
             | [] => Forall_nil P
             | x :: l' => Forall_cons x (item_nested_ind P HN HD x) (all l')
             end) ch)
  end.

(** Tree declarations used as concrete inputs below. *)
Definition tree_missing_template : list item :=
  [Dict None [] (Some (lit "a.txt")) None (Some (lit "missing.tpl"))].

Definition tree_src_foo : list item :=
  [Dict (Some (lit "src")) [Dict None [] (Some (lit "foo.ts")) None None]
        None None None].

(** ** What the standard output says about the mapping *)

(** The paths of the found-artifact lines, in the order printed. *)
Definition reported_paths (out : list message) : list str :=
  flat_map (fun m => match m with FoundArtifact p _ => [p] | _ => [] end) out.

(** A list without its repetitions: each element stays where it first
    occurs. *)
Definition first_occurrences (paths : list str) : list str :=
  fold_left
    (fun seen p => if existsb (str_eqb p) seen then seen else seen ++ [p])
    paths [].

Definition doc_prose : list str :=
  [ln "# Title"; ln "**Overview**"; ln "some text"; ln "**a.txt**"; ln "more"].

Definition doc_headless : list str :=
  [ln "intro"; ln "```"; ln "x"; ln "```"].

(** ** What the resolver's lists say *)

(** The file at [file_path] has the relative path [R] under [base_dir]
    and the line that it could not be written is in [out]. *)
Definition write_failed_at (H : host) (base_dir : Path H) (R : str)
    (out : list message) : Prop :=
  exists file_path rel,
    relative_to H file_path base_dir = Some rel
    /\ R = replace backslash slash rel
    /\ In (ErrorCreatingFile (path_str H file_path)) out.

(** The empty-files list and the lines printed agree: a file shown as
    created from nothing is listed, and for a listed path there is the
    line that shows it as created from nothing, or the error line of a
    file with that relative path. *)
Definition listing_agrees (H : host) (base_dir : Path H) (st : rs_state H)
  : Prop :=
  (forall R, In (CreatedFile R SrcEmpty) (console st) -> In R (empty_files st))
  /\ (forall R, In R (empty_files st) ->
                In (CreatedFile R SrcEmpty) (console st)
                \/ write_failed_at H base_dir R (console st)).

(** [st'] is [st] with more at the end of its two lists. *)
Definition extends (H : host) (st st' : rs_state H) : Prop :=
  (exists more, empty_files st' = empty_files st ++ more)
  /\ (exists more, console st' = console st ++ more).


(** A host like [WinHost] on which nothing can be read or written, while
    paths and directories work. *)
Module ReadOnlyHost.

Definition h : host := {|
  Path := list str;
  World := unit;
  joinpath := fun p name => p ++ [name];
  path_str := WinHost.show;
  relative_to := fun p base =>
    option_map WinHost.show (WinHost.strip_prefix base p);
  mkdir := fun w _ => Some w;
  read_text := fun _ _ => ReadFailed;
  write_text := fun w _ _ => (w, false)
|}.

Definition start : rs_state h :=
  {| world := (tt : World h); empty_files := []; console := [] |}.

End ReadOnlyHost.

Definition found_two_suffixes : dict :=
  [(lit "foo.ts", lit "short"); (lit "src/foo.ts", lit "long")].

(** ** Writing the artifacts without a tree, and [main] *)

(** [s.split(sep)] for a one-character separator. *)
Fixpoint split_char (sep : char) (s : str) : list str :=
  match s with
  | [] => [[]]
  | c :: s' =>
      if N.eqb c sep then [] :: split_char sep s'
      else match split_char sep s' with
           | part :: parts => (c :: part) :: parts
           | [] => [[c]]
           end
  end.

(** [a <= b] on strings: by code points, as Python compares. *)
Fixpoint str_leb (a b : str) : bool :=
  match a, b with
  | [], _ => true
  | _ :: _, [] => false
  | x :: a', y :: b' =>
      if N.ltb x y then true
      else if N.eqb x y then str_leb a' b' else false
  end.

Fixpoint insert_sorted (x : str) (l : list str) : list str :=
  match l with
  | [] => [x]
  | y :: l' => if str_leb x y then x :: l else y :: insert_sorted x l'
  end.

(** [sorted(l)] *)
Definition sorted (l : list str) : list str := fold_right insert_sorted [] l.

(** The lines [main] and [create_files_from_artifacts] print; a path is
    shown as its text. *)
Inductive report :=
| Said (m : message)                    (* a line of the extractor or resolver *)
| ProcessingMarkdown (markdown_path : str)
| NothingToDo
| OutputDirectory (resolved : str)
| UsingYaml (yaml_path : str)
| ScaffoldingIn (project_root : str)
| StructureMissing
| FromArtifactsOnly
| NoYamlFromArtifactsOnly
| UnexpectedError
| NoArtifactsToCreate
| CreatingStructureIn (base_dir : str)
| Wrote (file_path : str)
| ErrorWriting (file_path : str)
| SummaryHeader
| EmptyFilesWarning
| EmptyFile (file_path : str)
| AllPopulated
| Done.

(** What [yaml.safe_load] gives, as far as [main] reads it: the value of
    [name] (absent and null are [None]) and the [structure] list (absent,
    null and empty are the empty list). *)
Record yaml_data := {
  yaml_name : option str;
  yaml_structure : list item
}.

(** What [main] needs of the platform besides the host. *)
Record platform (H : host) := {
  (* [Path(s)] *)
  path_of : str -> Path H;
  (* [p.stem] *)
  stem_of : Path H -> str;
  (* [p.exists()]; [None] is an exception: a failure of the stat call
     other than the file not being there *)
  path_exists : World H -> Path H -> option bool;
  (* [str(p.resolve())]; [None] is an exception *)
  resolve_path : World H -> Path H -> option str;
  (* [open(p, 'r').readlines()] *)
  read_lines : World H -> Path H -> read_outcome (list str);
  (* [open], [yaml.safe_load] and the reading of [name]; [None] is an
     exception *)
  load_yaml : World H -> Path H -> option yaml_data;
  (* [os.path.join] of the parts *)
  os_path_join : list str -> str
}.
Arguments path_of {H}.
Arguments stem_of {H}.
Arguments path_exists {H}.
Arguments resolve_path {H}.
Arguments read_lines {H}.
Arguments load_yaml {H}.
Arguments os_path_join {H}.

Record cli_args := {
  markdown_file : str;
  yaml_file : option str;     (* [-s], [None] by default *)
  output_dir : option str     (* [-o], [None] by default *)
}.

(** An optional text that is neither [None] nor empty. *)
Definition truthy (o : option str) : option str :=
  match o with
  | Some (c :: s) => Some (c :: s)
  | _ => None
  end.

Section Main.

Variable H : host.
Variable P : platform H.

(** Where an artifact goes under [base_dir]. *)
Definition target (base_dir : Path H) (file_path_str : str) : Path H :=
  joinpath H base_dir (os_path_join P (split_char slash file_path_str)).

(** The loop of [create_files_from_artifacts]. *)
Fixpoint write_artifacts (items : dict) (base_dir : Path H) (w : World H)
  : World H * list report :=
  match items with
  | [] => (w, [])
  | (file_path_str, content) :: rest =>
      let file_path := target base_dir file_path_str in
      let (w1, ok) := write_text H w file_path content in
      let (w2, out) := write_artifacts rest base_dir w1 in
      (w2, (if ok then Wrote (path_str H file_path)
            else ErrorWriting (path_str H file_path)) :: out)
  end.

Definition create_files_from_artifacts (found : dict) (base_dir : Path H)
    (w : World H) : World H * list report :=
  match found with
  | [] => (w, [NoArtifactsToCreate])
  | _ :: _ =>
      let (w', out) := write_artifacts found base_dir w in
      (w', CreatingStructureIn (path_str H base_dir) :: out)
  end.

(** The end of [main]. *)
Definition summary (empty : list str) : list report :=
  SummaryHeader
  :: match empty with
     | [] => [AllPopulated]
     | _ :: _ => EmptyFilesWarning :: map EmptyFile (sorted empty)
     end
  ++ [Done].

(** The branch of [main] that uses the YAML structure: the world, the
    lines printed and the empty-files list it leaves. *)
Definition scaffold (found : dict) (base_dir yaml_path : Path H) (w : World H)
  : World H * list report * list str :=
  match load_yaml P w yaml_path with
  | None => (w, [UsingYaml (path_str H yaml_path); UnexpectedError], [])
  | Some data =>
      let project_root :=
        match truthy (yaml_name data) with
        | Some project_name => joinpath H base_dir project_name
        | None => base_dir
        end in
      match mkdir H w project_root with
      | None => (w, [UsingYaml (path_str H yaml_path); UnexpectedError], [])
      | Some w1 =>
          let opening := [UsingYaml (path_str H yaml_path);
                          ScaffoldingIn (path_str H project_root)] in
          match yaml_structure data with
          | _ :: _ =>
              let (st, ok) :=
                create_project_from_yaml (yaml_structure data) found
                  project_root project_root
                  {| world := w1; empty_files := []; console := [] |} in
              (world st,
               opening ++ map Said (console st)
               ++ (if ok then [] else [UnexpectedError]),
               empty_files st)
          | [] =>
              match found with
              | [] => (w1, opening ++ [StructureMissing], [])
              | _ :: _ =>
                  let (w2, out) :=
                    create_files_from_artifacts found project_root w1 in
                  (w2, opening ++ [StructureMissing; FromArtifactsOnly] ++ out,
                   [])
              end
          end
      end
  end.

(** The output directory [main] settles on. *)
Definition base_dir_of (args : cli_args) : Path H :=
  match truthy (output_dir args) with
  | Some o => path_of P o
  | None => path_of P (stem_of P (path_of P (markdown_file args)))
  end.

(** The branch of [main] that has no YAML structure to use. *)
Definition flat (found : dict) (base_dir : Path H) (w : World H)
  : World H * list report * list str :=
  let (w', out) := create_files_from_artifacts found base_dir w in
  (w', NoYamlFromArtifactsOnly :: out, []).

(** [if yaml_path and yaml_path.exists(): ... else: ...]; [None] is an
    exception of [exists()], which no [try] encloses. *)
Definition populate (found : dict) (base_dir : Path H)
    (yaml_path : option (Path H)) (w : World H)
  : option (World H * list report * list str) :=
  match yaml_path with
  | Some p =>
      match path_exists P w p with
      | Some true => Some (scaffold found base_dir p w)
      | Some false => Some (flat found base_dir w)
      | None => None
      end
  | None => Some (flat found base_dir w)
  end.

(** [yaml_path and yaml_path.exists()] in the first test of [main]:
    [not artifacts] comes first, so with artifacts [exists()] is not
    called. *)
Definition yaml_usable (found : dict) (yaml_path : option (Path H))
    (w : World H) : option bool :=
  match found, yaml_path with
  | [], Some p => path_exists P w p
  | _, _ => Some false
  end.

(** [main]: the world it leaves, the lines it prints, and [false] when an
    exception leaves it. *)
Definition main (args : cli_args) (w : World H)
  : World H * list report * bool :=
  let markdown_path := path_of P (markdown_file args) in
  let yaml_path := option_map (path_of P) (truthy (yaml_file args)) in
  let (found, printed) :=
    extract_artifacts_from_markdown (path_str H markdown_path)
      (read_lines P w markdown_path) in
  let out0 := ProcessingMarkdown (path_str H markdown_path) :: map Said printed in
  match yaml_usable found yaml_path w with
  | None => (w, out0, false)
  | Some yaml_exists =>
      if main_nothing_to_do found yaml_exists
      then (w, out0 ++ [NothingToDo], true)
      else
        let base_dir := base_dir_of args in
        match mkdir H w base_dir with
        | None => (w, out0, false)
        | Some w1 =>
            match resolve_path P w1 base_dir with
            | None => (w1, out0, false)
            | Some resolved =>
                match populate found base_dir yaml_path w1 with
                | None => (w1, out0 ++ [OutputDirectory resolved], false)
                | Some (w2, out, empty) =>
                    (w2,
                     out0 ++ [OutputDirectory resolved] ++ out ++ summary empty,
                     true)
                end
            end
        end
  end.

End Main.

(** The platform of [WinHost]: a file holds text, or the YAML data of the
    table [yamls]. *)
Module WinPlatform.

Definition last_part (p : list str) : str := last p [].

Definition p (yamls : list (str * yaml_data)) : platform WinHost.h := {|
  path_of := fun s => split_char slash s : Path WinHost.h;
  stem_of := fun q : Path WinHost.h => split_first [dot] (last_part q);
  path_exists := fun (w : World WinHost.h) (q : Path WinHost.h) =>
    Some (dict_mem (WinHost.show q) w
          || existsb (fun e => str_eqb (fst e) (WinHost.show q)) yamls);
  resolve_path := fun (w : World WinHost.h) (q : Path WinHost.h) =>
    Some (lit "C:\work\" ++ WinHost.show q);
  read_lines := fun (w : World WinHost.h) (q : Path WinHost.h) =>
    match dict_get (WinHost.show q) w with
    | Some text => ReadOk (readlines text)
    | None => ReadNotFound
    end;
  load_yaml := fun (w : World WinHost.h) (q : Path WinHost.h) =>
    option_map snd
      (find (fun e => str_eqb (fst e) (WinHost.show q)) yamls);
  os_path_join := join [backslash]
|}.

Definition notes_md : str :=
  ln "**a.txt**" ++ ln "```" ++ ln "x" ++ ln "```".

Definition prose_md : str := ln "# Notes" ++ ln "**a.txt**" ++ ln "no code".

Definition tree_yaml : yaml_data :=
  {| yaml_name := Some (lit "proj");
     yaml_structure :=
       [Dict None [] (Some (lit "a.txt")) None None;
        Dict None [] (Some (lit "b.txt")) None None] |}.

End WinPlatform.

Definition args_notes : cli_args :=
  {| markdown_file := lit "notes.md"; yaml_file := None; output_dir := None |}.

Definition args_tree : cli_args :=
  {| markdown_file := lit "notes.md"; yaml_file := Some (lit "tree.yaml");
     output_dir := Some (lit "out") |}.



(** A document whose second header lies in the block of the first. *)
Definition doc_nested_header : list str :=
  [ln "**a.txt**"; ln "```"; ln "**a.txt**"; ln "```"; ln "two"; ln "```"].

Definition found_two_files : dict :=
  [(lit "a.txt", lit "x"); (lit "b/c.txt", lit "y")].

Definition doc_versioned : list str :=
  [lit "**  src\app.py - entry point " ++ [bullet] ++ ln " Version 3**";
   ln "```python"; ln "print(1)"; ln "```"].

(** ** Strings and dictionaries: basic facts *)

Lemma str_eqb_eq (a b : str) : str_eqb a b = true <-> a = b.
Proof.
  revert b; induction a as [|x a IH]; intros [|y b]; simpl;
    try (split; (discriminate || reflexivity)).
  rewrite andb_true_iff, N.eqb_eq, IH.
  split; [intros [-> ->]; reflexivity | intros E; inversion E; auto].
Qed.

Lemma str_eqb_refl (a : str) : str_eqb a a = true.
Proof. apply str_eqb_eq; reflexivity. Qed.

Lemma str_eqb_neq (a b : str) : str_eqb a b = false <-> a <> b.
Proof.
  rewrite <- str_eqb_eq. destruct (str_eqb a b); split; congruence.
Qed.

Lemma startswith_spec (p s : str) :
  startswith p s = true <-> exists t, s = p ++ t.
Proof.
  revert s; induction p as [|x p IH]; intros s; simpl.
  - split; [exists s; reflexivity | reflexivity].
  - destruct s as [|y s].
    + split; [discriminate | intros [t E]; discriminate].
    + rewrite andb_true_iff, N.eqb_eq, IH. split.
      * intros [-> [t ->]]. exists t; reflexivity.
      * intros [t E]. inversion E; subst. split; [reflexivity | exists t; reflexivity].
Qed.

Lemma endswith_spec (s suf : str) :
  endswith s suf = true <-> exists pre, s = pre ++ suf.
Proof.
  unfold endswith. rewrite andb_true_iff, Nat.leb_le, str_eqb_eq. split.
  - intros [_ E]. exists (firstn (length s - length suf) s).
    pose proof (firstn_skipn (length s - length suf) s) as F.
    rewrite E in F. symmetry; exact F.
  - intros [pre ->]. rewrite length_app. split; [lia|].
    replace (length pre + length suf - length suf) with (length pre + 0) by lia.
    rewrite skipn_app, skipn_all2 by lia.
    replace (length pre + 0 - length pre) with 0 by lia. reflexivity.
Qed.

Lemma contains_spec (c : char) (s : str) : contains c s = true <-> In c s.
Proof.
  unfold contains. rewrite existsb_exists. split.
  - intros [x [Hin E]]. apply N.eqb_eq in E. subst; assumption.
  - intros Hin. exists c. split; [assumption | apply N.eqb_refl].
Qed.

Lemma contains_false (c : char) (s : str) : contains c s = false <-> ~ In c s.
Proof.
  rewrite <- contains_spec. destruct (contains c s); split; congruence.
Qed.

Lemma replace_backslash_free (s : str) : ~ In backslash (replace backslash slash s).
Proof.
  unfold replace. rewrite in_map_iff. intros [c [E _]].
  destruct (N.eqb c backslash) eqn:Ec; [discriminate|].
  apply N.eqb_neq in Ec. contradiction.
Qed.

Lemma join_nil_concat (parts : list str) : join [] parts = concat parts.
Proof.
  induction parts as [|p [|q rest] IH]; simpl in *.
  - reflexivity.
  - rewrite app_nil_r; reflexivity.
  - rewrite IH; reflexivity.
Qed.

Lemma dict_get_set_same (k v : str) (d : dict) :
  dict_get k (dict_set k v d) = Some v.
Proof.
  induction d as [|[k' v'] d IH]; simpl.
  - rewrite str_eqb_refl; reflexivity.
  - destruct (str_eqb k' k) eqn:E; simpl; rewrite E; auto.
Qed.

Lemma dict_get_set_other (k k' v : str) (d : dict) :
  k' <> k -> dict_get k' (dict_set k v d) = dict_get k' d.
Proof.
  intros Hne. induction d as [|[k0 v0] d IH]; simpl.
  - destruct (str_eqb k k') eqn:E; [apply str_eqb_eq in E; congruence | reflexivity].
  - destruct (str_eqb k0 k) eqn:E; simpl.
    + apply str_eqb_eq in E; subst k0.
      destruct (str_eqb k k') eqn:E'; [apply str_eqb_eq in E'; congruence | reflexivity].
    + rewrite IH; reflexivity.
Qed.

Lemma dict_keys_set (k v : str) (d : dict) :
  forall x, In x (dict_keys (dict_set k v d)) -> x = k \/ In x (dict_keys d).
Proof.
  unfold dict_keys. induction d as [|[k' v'] d IH]; simpl; intros x Hx.
  - destruct Hx as [<-|[]]; auto.
  - destruct (str_eqb k' k); simpl in Hx.
    + destruct Hx; auto.
    + destruct Hx as [<-|Hx]; auto. destruct (IH _ Hx); auto.
Qed.

Lemma dict_get_in_keys (k : str) (d : dict) :
  In k (dict_keys d) -> exists v, dict_get k d = Some v.
Proof.
  unfold dict_keys. induction d as [|[k' v'] d IH]; simpl; intros Hin.
  - contradiction.
  - destruct (str_eqb k' k) eqn:E; [eexists; reflexivity|].
    destruct Hin as [->|Hin]; [rewrite str_eqb_refl in E; discriminate | auto].
Qed.

(** ** The header forms named in the source *)

Example header_plain :
  option_map candidate_path (FILE_PATH_PATTERN_match (strip (ln "  **path/to/file.ext**")))
  = Some (lit "path/to/file.ext").
Proof. vm_compute. reflexivity. Qed.

Example header_with_description :
  option_map candidate_path
    (FILE_PATH_PATTERN_match (strip (ln "**filename.ext - A Description**")))
  = Some (lit "filename.ext").
Proof. vm_compute. reflexivity. Qed.

Example header_with_version :
  option_map (fun raw_header => (candidate_path raw_header, contains bullet raw_header))
    (FILE_PATH_PATTERN_match
       (strip (lit "**path/to/file.ext " ++ [bullet] ++ ln " Version X**")))
  = Some (lit "path/to/file.ext", true).
Proof. vm_compute. reflexivity. Qed.

Example header_needs_closing_stars :
  FILE_PATH_PATTERN_match (strip (ln "**a.txt* and more")) = None
  /\ FILE_PATH_PATTERN_match (strip (ln "text **a.txt**")) = None
  /\ FILE_PATH_PATTERN_match (strip (ln "****")) = None.
Proof. vm_compute. repeat split. Qed.

(** ** The inner loops *)

Arguments startswith : simpl never.
Arguments strip : simpl never.
Arguments FILE_PATH_PATTERN_match : simpl never.
Arguments candidate_path : simpl never.
Arguments is_valid_path : simpl never.

Lemma header_is_not_fence (line : str) :
  FILE_PATH_PATTERN_match line <> None -> CODE_BLOCK_PATTERN_match line = false.
Proof.
  unfold FILE_PATH_PATTERN_match, CODE_BLOCK_PATTERN_match.
  destruct line as [|a [|b body]]; try congruence.
  destruct (N.eqb a star) eqn:Ea; simpl; [|congruence].
  intros _. apply N.eqb_eq in Ea; subst a. reflexivity.
Qed.

Lemma find_fence_bounds (rest : list str) (j j' : nat) :
  find_fence rest j = Some j' -> j <= j' < j + length rest.
Proof.
  revert j; induction rest as [|l rest IH]; simpl; intros j Hf.
  - discriminate.
  - destruct (CODE_BLOCK_PATTERN_match (strip l)).
    + inversion Hf; lia.
    + destruct (FILE_PATH_PATTERN_match (strip l)); [discriminate|].
      apply IH in Hf. lia.
Qed.

Lemma find_fence_found (gap : list str) (op : str) (tail : list str) (j : nat) :
  Forall (fun l => is_fence l = false /\ is_header_candidate l = false) gap ->
  is_fence op = true ->
  find_fence (gap ++ op :: tail) j = Some (j + length gap).
Proof.
  unfold is_fence, is_header_candidate.
  intros Hgap Hop. revert j.
  induction Hgap as [|l gap [Hf Hh] _ IH]; simpl; intros j.
  - rewrite Hop. f_equal; lia.
  - rewrite Hf. destruct (FILE_PATH_PATTERN_match (strip l)); [discriminate|].
    rewrite IH. f_equal; lia.
Qed.

Lemma find_fence_missing (gap tail : list str) (j : nat) :
  Forall (fun l => is_fence l = false /\ is_header_candidate l = false) gap ->
  tail = [] \/ (exists h tail', tail = h :: tail' /\ is_header_candidate h = true) ->
  find_fence (gap ++ tail) j = None.
Proof.
  unfold is_fence, is_header_candidate.
  intros Hgap Htail. revert j.
  induction Hgap as [|l gap [Hf Hh] _ IH]; simpl; intros j.
  - destruct Htail as [->|[h [tail' [-> Hh]]]]; simpl; [reflexivity|].
    destruct (FILE_PATH_PATTERN_match (strip h)) eqn:E; [|discriminate].
    rewrite header_is_not_fence by congruence. reflexivity.
  - rewrite Hf. destruct (FILE_PATH_PATTERN_match (strip l)); [discriminate|].
    apply IH.
Qed.

Lemma collect_bounds (rest : list str) (k : nat) :
  k <= snd (collect rest k) <= k + length rest.
Proof.
  revert k; induction rest as [|l rest IH]; simpl; intros k.
  - lia.
  - destruct (startswith fence (strip l)); simpl; [lia|].
    specialize (IH (S k)). destruct (collect rest (S k)); simpl in *. lia.
Qed.

Lemma collect_body (body tail : list str) (k : nat) :
  Forall (fun l => is_fence l = false) body ->
  tail = [] \/ (exists c tail', tail = c :: tail' /\ is_fence c = true) ->
  collect (body ++ tail) k = (body, k + length body).
Proof.
  unfold is_fence, CODE_BLOCK_PATTERN_match.
  intros Hbody Htail. revert k.
  induction Hbody as [|l body Hf _ IH]; simpl; intros k.
  - destruct Htail as [->|[c [tail' [-> Hc]]]]; simpl.
    + f_equal; lia.
    + rewrite Hc. f_equal; lia.
  - rewrite Hf, IH. f_equal; lia.
Qed.

Lemma skipn_past (pre : list str) (x : str) (tl : list str) :
  skipn (S (length pre)) (pre ++ x :: tl) = tl.
Proof. induction pre; simpl; auto. Qed.

Lemma nth_error_middle (pre : list str) (x : str) (tl : list str) :
  nth_error (pre ++ x :: tl) (length pre) = Some x.
Proof. induction pre; simpl; auto. Qed.

(** ** The outer loop *)

Lemma visit_block (lines : list str) (i : nat) (raw : str) (st : ex_state) :
  visit lines i raw st =
  match block_at lines i raw with
  | Some (p, c, v, k) =>
      (k, {| artifacts := dict_set p c (artifacts st);
             stdout := stdout st ++ [FoundArtifact p v] |})
  | None => (i, st)
  end.
Proof.
  unfold visit, block_at.
  destruct (FILE_PATH_PATTERN_match (strip raw)) as [raw_header|]; [|reflexivity].
  destruct (is_valid_path (candidate_path raw_header)); cbn [negb]; [|reflexivity].
  destruct (find_fence (skipn (S i) lines) (S i)) as [j|]; [|reflexivity].
  destruct (collect (skipn (S j) lines) (S j)) as [code_content k].
  rewrite join_nil_concat. reflexivity.
Qed.

Lemma block_at_bounds (lines : list str) (i : nat) (raw p c : str) (v : bool) (k : nat) :
  block_at lines i raw = Some (p, c, v, k) -> i < k <= length lines.
Proof.
  unfold block_at.
  destruct (FILE_PATH_PATTERN_match (strip raw)) as [raw_header|]; [|discriminate].
  destruct (is_valid_path (candidate_path raw_header)); [|discriminate].
  destruct (find_fence (skipn (S i) lines) (S i)) as [j|] eqn:Ej; [|discriminate].
  apply find_fence_bounds in Ej. rewrite length_skipn in Ej.
  pose proof (collect_bounds (skipn (S j) lines) (S j)) as Hk.
  rewrite length_skipn in Hk.
  destruct (collect (skipn (S j) lines) (S j)) as [code_content k0]; simpl in Hk.
  intros E; inversion E; subst. lia.
Qed.

Lemma visit_bounds (lines : list str) (i i' : nat) (raw : str) (st st' : ex_state) :
  i < length lines ->
  visit lines i raw st = (i', st') -> i <= i' <= length lines.
Proof.
  intros Hi. rewrite visit_block.
  destruct (block_at lines i raw) as [[[[p c] v] k]|] eqn:E.
  - apply block_at_bounds in E. intros V; inversion V; subst; lia.
  - intros V; inversion V; subst; lia.
Qed.

Lemma scan_agree (lines : list str) (f1 : nat) :
  forall f2 i st,
    length lines - i <= f1 -> length lines - i <= f2 ->
    scan f1 lines i st = scan f2 lines i st.
Proof.
  induction f1 as [|f1 IH]; intros f2 i st H1 H2.
  - assert (Hn : nth_error lines i = None) by (apply nth_error_None; lia).
    destruct f2; simpl; [reflexivity | rewrite Hn; reflexivity].
  - simpl. destruct (nth_error lines i) as [raw|] eqn:Hn.
    + assert (Hi : i < length lines) by (apply nth_error_Some; congruence).
      destruct f2 as [|f2]; [lia|]. simpl. rewrite Hn.
      destruct (visit lines i raw st) as [i' st'] eqn:V.
      apply visit_bounds in V; [|assumption].
      apply IH; lia.
    + destruct f2; simpl; [reflexivity | rewrite Hn; reflexivity].
Qed.

(** The fuel of [run] is enough: more fuel changes nothing. *)
Lemma scan_enough (lines : list str) (fuel i : nat) (st : ex_state) :
  length lines - i <= fuel -> scan fuel lines i st = run lines i st.
Proof. intros Hf. apply scan_agree; [assumption | lia]. Qed.

Lemma run_done (lines : list str) (i : nat) (st : ex_state) :
  length lines <= i -> run lines i st = st.
Proof.
  intros Hi. unfold run. replace (length lines - i) with 0 by lia. reflexivity.
Qed.

Lemma run_step (lines : list str) (i : nat) (raw : str) (st : ex_state) :
  nth_error lines i = Some raw ->
  run lines i st =
  run lines (S (fst (visit lines i raw st))) (snd (visit lines i raw st)).
Proof.
  intros Hn.
  assert (Hi : i < length lines) by (apply nth_error_Some; congruence).
  unfold run at 1. destruct (length lines - i) as [|f] eqn:Ef; [lia|].
  simpl. rewrite Hn.
  destruct (visit lines i raw st) as [i' st'] eqn:V; simpl.
  apply visit_bounds in V; [|assumption].
  apply scan_enough; lia.
Qed.

Lemma reaches_run (lines : list str) (i : nat) (st : ex_state) :
  reaches lines i st -> run lines i st = extract_lines lines.
Proof.
  induction 1 as [|i raw st i' st' _ IH Hn V].
  - reflexivity.
  - rewrite <- IH, (run_step _ _ _ st Hn), V. reflexivity.
Qed.

Lemma run_visit (lines : list str) (i : nat) (raw : str) (st : ex_state) :
  nth_error lines i = Some raw ->
  visit lines i raw st = (i, st) ->
  run lines i st = run lines (S i) st.
Proof. intros Hn V. rewrite (run_step _ _ _ st Hn), V. reflexivity. Qed.

(** A header, lines that are neither fence nor header, an opening fence,
    a body without fence and then a closing fence or the end. *)
Lemma block_at_shape (pre : list str) (hdr : str) (gap : list str) (op : str)
    (body rest : list str) (raw_header : str) :
  FILE_PATH_PATTERN_match (strip hdr) = Some raw_header ->
  is_valid_path (candidate_path raw_header) = true ->
  Forall (fun l => is_fence l = false /\ is_header_candidate l = false) gap ->
  is_fence op = true ->
  Forall (fun l => is_fence l = false) body ->
  rest = [] \/ (exists c rest', rest = c :: rest' /\ is_fence c = true) ->
  block_at (pre ++ hdr :: gap ++ op :: body ++ rest) (length pre) hdr =
  Some (replace backslash slash (candidate_path raw_header), concat body,
        contains bullet raw_header, length pre + length gap + 2 + length body).
Proof.
  intros Hm Hv Hgap Hop Hbody Hrest. unfold block_at.
  rewrite Hm, Hv, skipn_past, (find_fence_found _ _ _ _ Hgap Hop).
  replace (pre ++ hdr :: gap ++ op :: body ++ rest)
    with ((pre ++ hdr :: gap) ++ op :: body ++ rest)
    by (rewrite <- app_assoc; reflexivity).
  replace (S (length pre) + length gap) with (length (pre ++ hdr :: gap))
    by (rewrite length_app; simpl; lia).
  rewrite skipn_past, (collect_body _ _ _ Hbody Hrest).
  rewrite length_app; simpl. repeat f_equal. lia.
Qed.

Lemma block_at_key (lines : list str) (i : nat) (raw p c : str) (v : bool) (k : nat) :
  block_at lines i raw = Some (p, c, v, k) ->
  ~ In backslash p /\ (In dot p \/ In slash p).
Proof.
  unfold block_at.
  destruct (FILE_PATH_PATTERN_match (strip raw)) as [raw_header|]; [|discriminate].
  destruct (is_valid_path (candidate_path raw_header)) eqn:Hv; [|discriminate].
  destruct (find_fence (skipn (S i) lines) (S i)) as [j|]; [|discriminate].
  destruct (collect (skipn (S j) lines) (S j)) as [code_content k0].
  intros E; inversion E; subst. split; [apply replace_backslash_free|].
  unfold is_valid_path in Hv. rewrite !orb_true_iff, !contains_spec in Hv.
  unfold replace. rewrite !in_map_iff.
  destruct Hv as [[Hd|Hs]|Hb].
  - left. exists dot. split; [reflexivity | assumption].
  - right. exists slash. split; [reflexivity | assumption].
  - right. exists backslash. split; [reflexivity | assumption].
Qed.

(** A property of the keys that every recorded path has is a property of
    all keys of the final mapping. *)
Lemma run_keys (P : str -> Prop) (lines : list str) :
  (forall i raw p c v k, block_at lines i raw = Some (p, c, v, k) -> P p) ->
  forall n i st,
    length lines - i <= n ->
    Forall P (dict_keys (artifacts st)) ->
    Forall P (dict_keys (artifacts (run lines i st))).
Proof.
  intros HP. induction n as [|n IH]; intros i st Hn Hst.
  - rewrite run_done by lia. assumption.
  - destruct (nth_error lines i) as [raw|] eqn:E.
    + assert (Hi : i < length lines) by (apply nth_error_Some; congruence).
      rewrite (run_step _ _ _ st E), visit_block.
      destruct (block_at lines i raw) as [[[[p c] v] k]|] eqn:B; simpl.
      * pose proof (block_at_bounds _ _ _ _ _ _ _ B). apply IH; [lia|]. simpl.
        apply Forall_forall. intros x Hx.
        destruct (dict_keys_set _ _ _ _ Hx) as [->|Hin].
        -- eapply HP; eassumption.
        -- rewrite Forall_forall in Hst; auto.
      * apply IH; [lia | assumption].
    + rewrite run_done; [assumption|]. apply nth_error_None; assumption.
Qed.

(** Once the scan is past the last block recorded under [p], the value
    under [p] stays. *)
Lemma run_keeps (lines : list str) (p c : str) (i0 : nat) :
  (forall i raw st c' v k,
      reaches lines i st -> i0 < i -> nth_error lines i = Some raw ->
      block_at lines i raw <> Some (p, c', v, k)) ->
  forall n i st,
    length lines - i <= n -> reaches lines i st -> i0 < i ->
    dict_get p (artifacts st) = Some c ->
    dict_get p (artifacts (run lines i st)) = Some c.
Proof.
  intros Hlast. induction n as [|n IH]; intros i st Hn Hr Hi0 Hg.
  - rewrite run_done by lia. assumption.
  - destruct (nth_error lines i) as [raw|] eqn:E.
    + assert (Hi : i < length lines) by (apply nth_error_Some; congruence).
      rewrite (run_step _ _ _ st E).
      pose proof (reaches_next Hr E (surjective_pairing _)) as Hr'.
      revert Hr'. rewrite visit_block.
      destruct (block_at lines i raw) as [[[[p' c'] v] k]|] eqn:B; simpl; intros Hr'.
      * pose proof (block_at_bounds _ _ _ _ _ _ _ B).
        apply IH; [lia | assumption | lia |]. simpl.
        rewrite dict_get_set_other; [assumption|].
        intros ->. exact (Hlast _ _ _ _ _ _ Hr Hi0 E B).
      * apply IH; [lia | assumption | lia | assumption].
    + rewrite run_done; [assumption|]. apply nth_error_None; assumption.
Qed.

(** ** The lookup *)

Lemma boundary_test (R key : str) :
  endswith R key && (str_eqb R key || endswith R (slash :: key)) = true
  <-> boundary_suffix R key.
Proof.
  unfold boundary_suffix.
  rewrite andb_true_iff, orb_true_iff, str_eqb_eq, !endswith_spec. split.
  - intros [_ [E|E]]; auto.
  - intros [->|[pre ->]].
    + split; [exists []; reflexivity | left; reflexivity].
    + split; [|right; exists pre; reflexivity].
      exists (pre ++ [slash]). rewrite <- app_assoc. reflexivity.
Qed.

Lemma boundary_suffix_ends (R K : str) :
  boundary_suffix R K -> exists pre, R = pre ++ K.
Proof.
  intros [->|[pre ->]]; [exists []; reflexivity|].
  exists (pre ++ [slash]). rewrite <- app_assoc. reflexivity.
Qed.

Lemma suffix_loop_sound (keys : list str) (found : dict) (R K : str) (c : option str) :
  suffix_loop keys found R = (c, SrcArtifactMatched K) ->
  In K keys /\ boundary_suffix R K /\ c = dict_get K found.
Proof.
  induction keys as [|key keys IH]; simpl.
  - discriminate.
  - destruct (endswith R key && (str_eqb R key || endswith R (slash :: key))) eqn:T.
    + intros E; inversion E; subst. apply boundary_test in T. auto.
    + intros E. destruct (IH E) as [? [? ?]]. auto.
Qed.

Lemma suffix_loop_source (keys : list str) (found : dict) (R : str) :
  suffix_loop keys found R = (None, SrcEmpty)
  \/ exists K, suffix_loop keys found R = (dict_get K found, SrcArtifactMatched K).
Proof.
  induction keys as [|key keys IH]; simpl; [left; reflexivity|].
  destruct (endswith R key && (str_eqb R key || endswith R (slash :: key)));
    [right; exists key; reflexivity | exact IH].
Qed.

Lemma suffix_loop_first (before after : list str) (found : dict) (R K : str) :
  Forall (fun key => ~ boundary_suffix R key) before ->
  boundary_suffix R K ->
  suffix_loop (before ++ K :: after) found R
  = (dict_get K found, SrcArtifactMatched K).
Proof.
  intros Hb HK. induction Hb as [|key before Hkey _ IH]; simpl.
  - apply boundary_test in HK. rewrite HK. reflexivity.
  - destruct (endswith R key && (str_eqb R key || endswith R (slash :: key))) eqn:T.
    + apply boundary_test in T. contradiction.
    + exact IH.
Qed.

Lemma lookup_artifact_match (found : dict) (R K : str) :
  artifact_match found R K ->
  exists src,
    (src = SrcArtifact \/ src = SrcArtifactMatched K)
    /\ lookup_artifact found R = (dict_get K found, src).
Proof.
  unfold lookup_artifact. intros [[Hm ->]|[Hm [before [after [Hk [Hb HK]]]]]].
  - exists SrcArtifact. rewrite Hm. auto.
  - exists (SrcArtifactMatched K). rewrite Hm, Hk.
    rewrite (suffix_loop_first _ _ _ _ _ Hb HK). auto.
Qed.

Lemma resolve_file_artifact (found : dict) (R : str) (text : str) (src : source)
    (content : option yaml_text) (template : option str)
    (template_path : str -> str) (read : str -> read_outcome str) :
  lookup_artifact found R = (Some text, src) ->
  resolve_file found R content template template_path read
  = (Some text, src, []).
Proof. unfold resolve_file. intros ->. reflexivity. Qed.

(** ** The traversal *)

Section ResolverFacts.

Variable H : host.

Lemma process_file_normalized (found : dict) (base_dir current_path : Path H)
    (file_name : str) (content : option yaml_text) (template : option str)
    (st : rs_state H) :
  normalized H st ->
  normalized H (fst (process_file found base_dir current_path file_name
                       content template st)).
Proof.
  unfold process_file, normalized. intros [He Hc].
  destruct (relative_to H (joinpath H current_path file_name) base_dir) as [rel|];
    [|split; assumption].
  destruct (resolve_file _ _ _ _ _) as [[c src] printed] eqn:Er.
  destruct (write_text H (world st) _ _) as [w ok]. simpl.
  pose proof (replace_backslash_free rel) as Hfree. split.
  - destruct (source_is_empty src); [|assumption].
    apply Forall_app; split; [assumption | repeat constructor; assumption].
  - apply Forall_app; split; [assumption|].
    apply Forall_app; split.
    + unfold resolve_file in Er.
      destruct (lookup_artifact found (replace backslash slash rel)) as [[text|] s0].
      * inversion Er; constructor.
      * destruct content as [y|].
        -- inversion Er; constructor.
        -- destruct template as [t|]; [|inversion Er; constructor].
           destruct (read_text H (world st) (joinpath H base_dir t));
             inversion Er; repeat constructor.
    + destruct ok; repeat constructor; assumption.
Qed.

Lemma for_each_normalized (body : item -> rs_state H -> rs_state H * bool)
    (structure : list item) :
  Forall (fun it => forall st, normalized H st -> normalized H (fst (body it st)))
         structure ->
  forall st, normalized H st -> normalized H (fst (for_each body structure st)).
Proof.
  induction 1 as [|it rest Hit _ IH]; simpl; intros st Hst; [assumption|].
  specialize (Hit st Hst). destruct (body it st) as [st' ok]; simpl in Hit.
  destruct ok; [apply IH; assumption | assumption].
Qed.

Lemma process_item_normalized (found : dict) (base_dir : Path H) (it : item) :
  forall current_path st,
    normalized H st ->
    normalized H (fst (process_item found base_dir current_path it st)).
Proof.
  induction it as [|d ch f c t IH] using item_nested_ind; intros current_path st Hst.
  - assumption.
  - destruct d as [dir_name|]; simpl.
    + destruct (relative_to H (joinpath H current_path dir_name) base_dir) as [rel|];
        [|assumption].
      assert (Hst1 : normalized H
                {| world := world st; empty_files := empty_files st;
                   console := console st ++ [CreatingDirectory rel] |}).
      { destruct Hst as [He Hc]. split; simpl; [assumption|].
        apply Forall_app; split; [assumption | repeat constructor]. }
      destruct (mkdir H (world st) (joinpath H current_path dir_name)) as [w|];
        [|assumption].
      apply for_each_normalized.
      * eapply Forall_impl; [|exact IH]. intros x Hx st0. apply Hx.
      * destruct Hst1 as [He Hc]. split; assumption.
    + destruct f as [file_name|]; [|assumption].
      apply process_file_normalized; assumption.
Qed.

Lemma create_project_normalized (structure : list item) (found : dict)
    (base_dir current_path : Path H) (st : rs_state H) :
  normalized H st ->
  normalized H (fst (create_project_from_yaml structure found base_dir
                       current_path st)).
Proof.
  intros Hst. unfold create_project_from_yaml. apply for_each_normalized; [|assumption].
  apply Forall_forall. intros it _ st0. apply process_item_normalized.
Qed.

End ResolverFacts.

(** ** The extractor: content of a block *)

(** C2 as stated fails: the collected lines keep their own newline, and
    the recorded content is their concatenation; joining them with a
    newline gives another text, whether the lines are taken with their
    terminator or without it. *)
Lemma newline_join_differs :
  collect (skipn 2 doc_two_lines) 2 = ([ln "x"; ln "y"], 4)
  /\ artifacts (extract_lines doc_two_lines) = [(lit "a.txt", ln "x" ++ ln "y")]
  /\ ln "x" ++ ln "y" <> join [newline] [ln "x"; ln "y"]
  /\ ln "x" ++ ln "y" <> join [newline] [lit "x"; lit "y"].
Proof. vm_compute. repeat split; discriminate. Qed.

(** C2 (amended): for a matched header whose fence-start line is found,
    the recorded content is the concatenation, with nothing put in
    between, of the lines between the fence-start line and the closing
    fence, each with its own line terminator; the document with header
    a/b.txt and a fence holding the line hello gives the mapping from
    a/b.txt to that line. *)
Theorem fenced_block_content (pre : list str) (hdr : str) (gap : list str)
    (op : str) (body rest : list str) (raw_header : str) (st : ex_state) :
  FILE_PATH_PATTERN_match (strip hdr) = Some raw_header ->
  is_valid_path (candidate_path raw_header) = true ->
  Forall (fun l => is_fence l = false /\ is_header_candidate l = false) gap ->
  is_fence op = true ->
  Forall (fun l => is_fence l = false) body ->
  rest = [] \/ (exists c rest', rest = c :: rest' /\ is_fence c = true) ->
  let lines := pre ++ hdr :: gap ++ op :: body ++ rest in
  let p := replace backslash slash (candidate_path raw_header) in
  visit lines (length pre) hdr st
  = (length pre + length gap + 2 + length body,
     {| artifacts := dict_set p (concat body) (artifacts st);
        stdout := stdout st ++ [FoundArtifact p (contains bullet raw_header)] |})
  /\ dict_get p (artifacts (snd (visit lines (length pre) hdr st)))
     = Some (concat body)
  /\ artifacts (extract_lines doc_roundtrip) = [(lit "a/b.txt", ln "hello")].
Proof.
  intros Hm Hv Hgap Hop Hbody Hrest lines p.
  assert (V : visit lines (length pre) hdr st
              = (length pre + length gap + 2 + length body,
                 {| artifacts := dict_set p (concat body) (artifacts st);
                    stdout := stdout st
                              ++ [FoundArtifact p (contains bullet raw_header)] |})).
  { rewrite visit_block. unfold lines.
    rewrite (block_at_shape pre hdr gap op body rest raw_header) by assumption.
    reflexivity. }
  split; [exact V|]. split.
  - rewrite V. simpl. apply dict_get_set_same.
  - vm_compute. reflexivity.
Qed.

Lemma fenced_block_content_witness :
  dict_get (lit "a.txt")
    (artifacts (snd (visit doc_unclosed 0 (ln "**a.txt**") empty_state)))
  = Some (ln "x" ++ lit "y").
Proof.
  refine (proj1 (proj2 (fenced_block_content [] (ln "**a.txt**") [ln ""]
            (ln "```python") [ln "x"; lit "y"] [] (lit "a.txt") empty_state
            _ _ _ _ _ _))).
  - vm_compute; reflexivity.
  - vm_compute; reflexivity.
  - repeat constructor.
  - vm_compute; reflexivity.
  - repeat constructor.
  - left; reflexivity.
Defined.

(** ** The extractor: last occurrence wins *)

(** C4 as stated fails: a header that lies in the block collected for an
    earlier header is content, not a header; here both bolded lines are
    valid headers for a.txt, each followed by a closed fenced block, and
    the mapping keeps the first block, which holds the second header. *)
Lemma later_block_not_kept :
  nth_error doc_nested_header 0 = Some (ln "**a.txt**")
  /\ block_at doc_nested_header 0 (ln "**a.txt**")
     = Some (lit "a.txt", ln "**a.txt**", false, 3)
  /\ nth_error doc_nested_header 2 = Some (ln "**a.txt**")
  /\ block_at doc_nested_header 2 (ln "**a.txt**")
     = Some (lit "a.txt", ln "two", false, 5)
  /\ dict_get (lit "a.txt") (artifacts (extract_lines doc_nested_header))
     = Some (ln "**a.txt**")
  /\ ln "**a.txt**" <> ln "two".
Proof. vm_compute. repeat split; discriminate. Qed.

(** C4 (amended): when the outer scan visits two headers with the same
    normalized path, each with a fenced block, and no header it visits
    later with that path has one, the final mapping holds the content of
    the later block. *)
Theorem last_header_wins (lines : list str) (i1 i2 : nat) (raw1 raw2 : str)
    (st1 st2 : ex_state) (p c1 c2 : str) (v1 v2 : bool) (k1 k2 : nat) :
  reaches lines i1 st1 -> nth_error lines i1 = Some raw1 ->
  block_at lines i1 raw1 = Some (p, c1, v1, k1) ->
  reaches lines i2 st2 -> nth_error lines i2 = Some raw2 ->
  block_at lines i2 raw2 = Some (p, c2, v2, k2) ->
  i1 < i2 ->
  (forall i raw st c v k,
      reaches lines i st -> i2 < i -> nth_error lines i = Some raw ->
      block_at lines i raw <> Some (p, c, v, k)) ->
  dict_get p (artifacts (extract_lines lines)) = Some c2.
Proof.
  intros _ _ _ Hr2 Hn2 B2 _ Hlast.
  rewrite <- (reaches_run _ _ _ Hr2), (run_step _ _ _ st2 Hn2).
  pose proof (reaches_next Hr2 Hn2 (surjective_pairing _)) as Hr'.
  revert Hr'. rewrite visit_block, B2. simpl. intros Hr'.
  pose proof (block_at_bounds _ _ _ _ _ _ _ B2).
  apply (run_keeps lines p c2 i2 Hlast (length lines)); [lia | assumption | lia |].
  simpl. apply dict_get_set_same.
Qed.

Lemma last_header_wins_witness :
  dict_get (lit "a.txt") (artifacts (extract_lines doc_two_versions))
  = Some (ln "two").
Proof.
  assert (R0 : reaches doc_two_versions 0 empty_state) by apply reaches_start.
  assert (R4 : reaches doc_two_versions 4
                 (snd (visit doc_two_versions 0 (ln "**a.txt**") empty_state))).
  { exact (@reaches_next doc_two_versions 0 (ln "**a.txt**") empty_state 3 _
             R0 eq_refl eq_refl). }
  refine (last_header_wins doc_two_versions 0 4 (ln "**a.txt**") (ln "**a.txt**")
            _ _ (lit "a.txt") (ln "one") (ln "two") false false 3 7
            R0 eq_refl _ R4 eq_refl _ _ _).
  - vm_compute; reflexivity.
  - vm_compute; reflexivity.
  - lia.
  - intros i raw st c v k _ Hi Hn.
    do 5 (destruct i as [|i]; [lia|]).
    do 3 (destruct i as [|i];
          [injection Hn as <-; vm_compute; discriminate|]).
    destruct i; discriminate.
Defined.

(** ** The extractor: headers that record nothing *)

(** C5: a valid header followed by no fence-start line before the next
    header-candidate line, or before the end of the document, leaves the
    mapping as it is, and the scan goes on at the line after the header:
    the lines in between are visited again by the outer scan. *)
Theorem header_without_fence (pre : list str) (hdr : str) (gap rest : list str)
    (raw_header : str) (st : ex_state) :
  FILE_PATH_PATTERN_match (strip hdr) = Some raw_header ->
  is_valid_path (candidate_path raw_header) = true ->
  Forall (fun l => is_fence l = false /\ is_header_candidate l = false) gap ->
  rest = [] \/ (exists h rest', rest = h :: rest' /\ is_header_candidate h = true) ->
  let lines := pre ++ hdr :: gap ++ rest in
  visit lines (length pre) hdr st = (length pre, st)
  /\ run lines (length pre) st = run lines (S (length pre)) st.
Proof.
  intros Hm Hv Hgap Hrest lines.
  assert (V : visit lines (length pre) hdr st = (length pre, st)).
  { unfold visit, lines. rewrite Hm, Hv, skipn_past. cbn [negb].
    rewrite (find_fence_missing _ _ _ Hgap Hrest). reflexivity. }
  split; [exact V|].
  apply (run_visit lines (length pre) hdr st); [|exact V].
  apply nth_error_middle.
Qed.

Lemma header_without_fence_witness :
  visit doc_no_fence 0 (ln "**a.txt**") empty_state = (0, empty_state)
  /\ run doc_no_fence 0 empty_state = run doc_no_fence 1 empty_state.
Proof.
  refine (header_without_fence [] (ln "**a.txt**") [ln "some prose"]
            [ln "**b.txt**"; ln "```"; ln "x"; ln "```"] (lit "a.txt")
            empty_state _ _ _ _).
  - vm_compute; reflexivity.
  - vm_compute; reflexivity.
  - repeat constructor.
  - right. eexists; eexists. split; [reflexivity | vm_compute; reflexivity].
Defined.

(** C6: a bolded header whose candidate path holds none of the dot, the
    slash and the backslash records nothing, whatever follows it, and the
    scan goes on at the next line; its candidate path is a key of no
    extracted mapping.  A bolded Overview line followed by a fenced block
    gives the empty mapping. *)
Theorem invalid_header_rejected (lines : list str) (i : nat)
    (raw raw_header : str) (st : ex_state) :
  nth_error lines i = Some raw ->
  FILE_PATH_PATTERN_match (strip raw) = Some raw_header ->
  contains dot (candidate_path raw_header) = false ->
  contains slash (candidate_path raw_header) = false ->
  contains backslash (candidate_path raw_header) = false ->
  visit lines i raw st = (i, st)
  /\ run lines i st = run lines (S i) st
  /\ (forall doc,
        ~ In (candidate_path raw_header)
             (dict_keys (artifacts (extract_lines doc))))
  /\ artifacts (extract_lines doc_overview) = [].
Proof.
  intros Hn Hm Hd Hs Hb.
  assert (V : visit lines i raw st = (i, st)).
  { unfold visit. rewrite Hm. unfold is_valid_path. rewrite Hd, Hs, Hb.
    reflexivity. }
  split; [exact V|]. split; [apply (run_visit lines i raw st Hn V)|].
  split; [|vm_compute; reflexivity].
  intros doc Hin.
  pose proof (run_keys (fun key => In dot key \/ In slash key) doc) as K.
  assert (Hall : Forall (fun key => In dot key \/ In slash key)
                   (dict_keys (artifacts (extract_lines doc)))).
  { apply (K (fun i0 raw0 p c v k B => proj2 (block_at_key _ _ _ _ _ _ _ B))
             (length doc) 0); [lia | constructor]. }
  rewrite Forall_forall in Hall. specialize (Hall _ Hin).
  apply contains_false in Hd, Hs. tauto.
Qed.

Lemma invalid_header_rejected_witness :
  visit doc_overview 0 (ln "**Overview**") empty_state = (0, empty_state)
  /\ run doc_overview 0 empty_state = run doc_overview 1 empty_state.
Proof.
  pose proof (invalid_header_rejected doc_overview 0 (ln "**Overview**")
                (lit "Overview") empty_state
                eq_refl eq_refl eq_refl eq_refl eq_refl) as [V [R _]].
  split; [exact V | exact R].
Defined.

(** C9: when the fence opened after a valid header is never closed, all
    the lines that remain are the content, and the artifact is in the
    final mapping. *)
Theorem unclosed_fence_keeps_rest (pre : list str) (hdr : str) (gap : list str)
    (op : str) (body : list str) (raw_header : str) (st : ex_state) :
  reaches (pre ++ hdr :: gap ++ op :: body) (length pre) st ->
  FILE_PATH_PATTERN_match (strip hdr) = Some raw_header ->
  is_valid_path (candidate_path raw_header) = true ->
  Forall (fun l => is_fence l = false /\ is_header_candidate l = false) gap ->
  is_fence op = true ->
  Forall (fun l => is_fence l = false) body ->
  let lines := pre ++ hdr :: gap ++ op :: body in
  let p := replace backslash slash (candidate_path raw_header) in
  artifacts (extract_lines lines) = dict_set p (concat body) (artifacts st)
  /\ dict_get p (artifacts (extract_lines lines)) = Some (concat body).
Proof.
  intros Hr Hm Hv Hgap Hop Hbody lines p.
  assert (E : artifacts (extract_lines lines)
              = dict_set p (concat body) (artifacts st)).
  { rewrite <- (reaches_run lines _ _ Hr).
    rewrite (run_step lines (length pre) hdr st) by apply nth_error_middle.
    rewrite visit_block. unfold lines.
    pose proof (block_at_shape pre hdr gap op body [] raw_header
                  Hm Hv Hgap Hop Hbody (or_introl eq_refl)) as B.
    rewrite app_nil_r in B. rewrite B. simpl.
    rewrite run_done; [reflexivity|].
    rewrite !length_app; simpl; rewrite length_app; simpl. lia. }
  split; [exact E|]. rewrite E. apply dict_get_set_same.
Qed.

Lemma unclosed_fence_keeps_rest_witness :
  artifacts (extract_lines doc_unclosed) = [(lit "a.txt", ln "x" ++ lit "y")].
Proof.
  refine (proj1 (unclosed_fence_keeps_rest [] (ln "**a.txt**") [ln ""]
            (ln "```python") [ln "x"; lit "y"] (lit "a.txt") empty_state
            _ _ _ _ _ _)).
  - apply reaches_start.
  - vm_compute; reflexivity.
  - vm_compute; reflexivity.
  - repeat constructor.
  - vm_compute; reflexivity.
  - repeat constructor.
Defined.

(** C8: when the document cannot be opened or read, for want of the file
    or for any other error, the extractor returns the empty mapping and
    prints one diagnostic; with a structure file the caller goes on, and
    a declared literal content is then what a file gets. *)
Theorem unreadable_document_gives_empty_mapping (markdown_path : str) :
  extract_artifacts_from_markdown markdown_path ReadNotFound
  = ([], [MarkdownNotFound markdown_path])
  /\ extract_artifacts_from_markdown markdown_path ReadFailed
     = ([], [MarkdownReadError markdown_path])
  /\ main_nothing_to_do
       (fst (extract_artifacts_from_markdown markdown_path ReadNotFound)) true
     = false
  /\ (forall R text template template_path read,
        resolve_file
          (fst (extract_artifacts_from_markdown markdown_path ReadFailed))
          R (Some (YText text)) template template_path read
        = (Some text, SrcYamlContent, [])).
Proof. repeat split. Qed.

(** ** The resolver *)

(** C3: when [R] is not a key, the suffix match settles on a key [K]
    only if [R] ends with [K] and either [R] is [K] or the character of
    [R] just before the suffix is a slash; src/foo.ts does not match the
    key oo.ts and does match the key foo.ts. *)
Theorem suffix_match_boundary (found : dict) (R K : str) (c : option str) :
  dict_mem R found = false ->
  lookup_artifact found R = (c, SrcArtifactMatched K) ->
  In K (dict_keys found)
  /\ (exists pre, R = pre ++ K)
  /\ (R = K \/ exists pre, R = pre ++ slash :: K)
  /\ lookup_artifact [(lit "oo.ts", lit "x")] (lit "src/foo.ts") = (None, SrcEmpty)
  /\ lookup_artifact [(lit "foo.ts", lit "x")] (lit "myfoo.ts") = (None, SrcEmpty)
  /\ lookup_artifact [(lit "foo.ts", lit "x")] (lit "src/foo.ts")
     = (Some (lit "x"), SrcArtifactMatched (lit "foo.ts")).
Proof.
  unfold lookup_artifact at 1. intros -> E.
  apply suffix_loop_sound in E. destruct E as [Hin [Hb _]].
  split; [exact Hin|]. split; [exact (boundary_suffix_ends _ _ Hb)|].
  split; [exact Hb|]. vm_compute. repeat split.
Qed.

Lemma suffix_match_boundary_witness :
  exists pre, lit "src/foo.ts" = pre ++ slash :: lit "foo.ts".
Proof.
  destruct (suffix_match_boundary [(lit "foo.ts", lit "x")] (lit "src/foo.ts")
              (lit "foo.ts") (Some (lit "x")) eq_refl eq_refl)
    as [_ [_ [[E|E] _]]].
  - discriminate E.
  - exact E.
Defined.

(** C10: a declared file whose path matches an artifact, directly or by
    boundary-safe suffix, gets that artifact's content also when it is
    the empty string: the source is the artifact, neither the inline
    content nor the template is used, and the path does not go to the
    empty-files list. *)
Theorem empty_artifact_is_used (H : host) (found : dict)
    (base_dir current_path : Path H) (file_name rel K : str)
    (content : option yaml_text) (template : option str) (st : rs_state H) :
  relative_to H (joinpath H current_path file_name) base_dir = Some rel ->
  artifact_match found (replace backslash slash rel) K ->
  dict_get K found = Some [] ->
  let R := replace backslash slash rel in
  let st' := fst (process_file found base_dir current_path file_name
                    content template st) in
  exists src,
    (src = SrcArtifact \/ src = SrcArtifactMatched K)
    /\ resolve_file found R content template
         (fun t => path_str H (joinpath H base_dir t))
         (fun t => read_text H (world st) (joinpath H base_dir t))
       = (Some [], src, [])
    /\ empty_files st' = empty_files st
    /\ (console st' = console st ++ [CreatedFile R src]
        \/ console st'
           = console st
             ++ [ErrorCreatingFile
                   (path_str H (joinpath H current_path file_name))]).
Proof.
  intros Hrel Hmatch Hget R st'.
  destruct (lookup_artifact_match _ _ _ Hmatch) as [src [Hsrc Hl]].
  rewrite Hget in Hl. exists src. split; [exact Hsrc|].
  pose proof (resolve_file_artifact found R [] src content template
                (fun t => path_str H (joinpath H base_dir t))
                (fun t => read_text H (world st) (joinpath H base_dir t)) Hl) as Er.
  split; [exact Er|].
  unfold st', process_file. rewrite Hrel. fold R. rewrite Er.
  cbn [written_text].
  destruct (write_text H (world st) (joinpath H current_path file_name) [])
    as [w ok]. simpl.
  split.
  - destruct Hsrc as [->| ->]; reflexivity.
  - destruct ok; [left | right]; reflexivity.
Qed.

Lemma empty_artifact_is_used_witness :
  exists src,
    (src = SrcArtifact \/ src = SrcArtifactMatched (lit "foo.ts"))
    /\ resolve_file [(lit "foo.ts", [])] (lit "src/foo.ts")
         (Some (YText (lit "inline"))) (Some (lit "t.tpl"))
         (fun t => path_str WinHost.h [t])
         (fun t => read_text WinHost.h (world WinHost.start) [t])
       = (Some [], src, [])
    /\ empty_files
         (fst (@process_file WinHost.h [(lit "foo.ts", [])] [] [lit "src"]
                 (lit "foo.ts") (Some (YText (lit "inline")))
                 (Some (lit "t.tpl")) WinHost.start))
       = []
    /\ (console
          (fst (@process_file WinHost.h [(lit "foo.ts", [])] [] [lit "src"]
                  (lit "foo.ts") (Some (YText (lit "inline")))
                  (Some (lit "t.tpl")) WinHost.start))
        = [] ++ [CreatedFile (lit "src/foo.ts") src]
        \/ console
             (fst (@process_file WinHost.h [(lit "foo.ts", [])] [] [lit "src"]
                     (lit "foo.ts") (Some (YText (lit "inline")))
                     (Some (lit "t.tpl")) WinHost.start))
           = [] ++ [ErrorCreatingFile (path_str WinHost.h [lit "src"; lit "foo.ts"])]).
Proof.
  refine (empty_artifact_is_used WinHost.h [(lit "foo.ts", [])] [] [lit "src"]
            (lit "foo.ts") (lit "src\foo.ts") (lit "foo.ts")
            (Some (YText (lit "inline"))) (Some (lit "t.tpl")) WinHost.start
            _ _ _).
  - vm_compute; reflexivity.
  - right. split; [vm_compute; reflexivity|].
    exists [], []. split; [reflexivity|]. split; [constructor|].
    right. exists (lit "src"). vm_compute; reflexivity.
  - reflexivity.
Defined.

(** C7: no key of an extracted mapping holds a backslash, and no relative
    path the resolver resolves does, in the line that shows the file as
    created or in the empty-files list: a header written with backslashes
    is recorded with slashes, and a path the host prints with backslashes
    is looked up with slashes. *)
Theorem paths_use_forward_slashes :
  (forall lines,
      Forall (fun key => ~ In backslash key)
             (dict_keys (artifacts (extract_lines lines))))
  /\ (forall (H : host) structure found (base_dir current_path : Path H) w,
        normalized H
          (fst (create_project_from_yaml structure found base_dir current_path
                  {| world := w; empty_files := []; console := [] |})))
  /\ artifacts (extract_lines doc_backslash) = [(lit "src/util.py", ln "x")]
  /\ console (fst (@create_project_from_yaml WinHost.h tree_src_foo
                     [(lit "src/foo.ts", lit "x")] [] [] WinHost.start))
     = [CreatingDirectory (lit "src"); CreatedFile (lit "src/foo.ts") SrcArtifact].
Proof.
  split; [|split; [|split; vm_compute; reflexivity]].
  - intros lines.
    apply (run_keys (fun key => ~ In backslash key) lines
             (fun i raw p c v k B => proj1 (block_at_key _ _ _ _ _ _ _ B))
             (length lines) 0); [lia | constructor].
  - intros H structure found base_dir current_path w.
    apply create_project_normalized. split; constructor.
Qed.

(** C1 fails on the code for a template that is not found: the file is
    created empty, the source is set to the not-found text, and the path
    is left out of the empty-files list. *)
Theorem missing_template_left_unlisted :
  read_text WinHost.h (world WinHost.start) [lit "missing.tpl"] = ReadNotFound
  /\ lookup_artifact [] (lit "a.txt") = (None, SrcEmpty)
  /\ console (fst (@create_project_from_yaml WinHost.h tree_missing_template
                     [] [] [] WinHost.start))
     = [TemplateNotFound (lit "missing.tpl");
        CreatedFile (lit "a.txt") SrcTemplateNotFound]
  /\ dict_get (lit "a.txt")
       (world (fst (@create_project_from_yaml WinHost.h tree_missing_template
                      [] [] [] WinHost.start)))
     = Some []
  /\ empty_files (fst (@create_project_from_yaml WinHost.h tree_missing_template
                         [] [] [] WinHost.start))
     = [].
Proof. vm_compute. repeat split. Qed.

(** The sibling path: a template that is there but cannot be read leaves
    the source as it was, and the path is listed. *)
Lemma unreadable_template_listed :
  console (fst (@create_project_from_yaml WinHost.locked tree_missing_template
                  [] [] [] WinHost.locked_start))
  = [TemplateReadError (lit "missing.tpl"); CreatedFile (lit "a.txt") SrcEmpty]
  /\ empty_files (fst (@create_project_from_yaml WinHost.locked
                         tree_missing_template [] [] [] WinHost.locked_start))
     = [lit "a.txt"].
Proof. vm_compute. repeat split. Qed.

(** Without artifact, inline content and template the path is listed. *)
Lemma resolve_file_nothing (found : dict) (R : str)
    (template_path : str -> str) (read : str -> read_outcome str) :
  lookup_artifact found R = (None, SrcEmpty) ->
  resolve_file found R None None template_path read = (None, SrcEmpty, []).
Proof. unfold resolve_file. intros ->. reflexivity. Qed.

Lemma resolve_file_template (found : dict) (R t : str)
    (template_path : str -> str) (read : str -> read_outcome str) :
  lookup_artifact found R = (None, SrcEmpty) ->
  resolve_file found R None (Some t) template_path read
  = match read t with
    | ReadOk text => (Some text, SrcTemplate t, [])
    | ReadNotFound =>
        (None, SrcTemplateNotFound, [TemplateNotFound (template_path t)])
    | ReadFailed => (None, SrcEmpty, [TemplateReadError (template_path t)])
    end.
Proof. unfold resolve_file. intros ->. reflexivity. Qed.

(** ** More on the extractor *)

Lemma str_eqb_sym (a b : str) : str_eqb a b = str_eqb b a.
Proof.
  destruct (str_eqb a b) eqn:E.
  - apply str_eqb_eq in E; subst. symmetry; apply str_eqb_refl.
  - apply str_eqb_neq in E. symmetry. apply str_eqb_neq. congruence.
Qed.

Lemma dict_mem_keys (k : str) (d : dict) :
  dict_mem k d = existsb (str_eqb k) (dict_keys d).
Proof.
  unfold dict_mem, dict_keys. induction d as [|[k' v] d IH]; simpl.
  - reflexivity.
  - rewrite (str_eqb_sym k k'). destruct (str_eqb k' k); simpl; auto.
Qed.

Lemma dict_keys_set_order (k v : str) (d : dict) :
  dict_keys (dict_set k v d)
  = if dict_mem k d then dict_keys d else dict_keys d ++ [k].
Proof.
  unfold dict_mem, dict_keys. induction d as [|[k' v'] d IH]; simpl.
  - reflexivity.
  - destruct (str_eqb k' k) eqn:E; simpl; [reflexivity|].
    rewrite IH. destruct (dict_get k d); reflexivity.
Qed.

Lemma reported_paths_app (a b : list message) :
  reported_paths (a ++ b) = reported_paths a ++ reported_paths b.
Proof. unfold reported_paths. apply flat_map_app. Qed.

Lemma first_occurrences_snoc (paths : list str) (p : str) :
  first_occurrences (paths ++ [p])
  = if existsb (str_eqb p) (first_occurrences paths)
    then first_occurrences paths
    else first_occurrences paths ++ [p].
Proof. unfold first_occurrences. rewrite fold_left_app. reflexivity. Qed.

Lemma existsb_str_eqb_In (p : str) (l : list str) :
  existsb (str_eqb p) l = true <-> In p l.
Proof.
  rewrite existsb_exists. split.
  - intros [x [Hin E]]. apply str_eqb_eq in E. subst; assumption.
  - intros Hin. exists p. split; [assumption | apply str_eqb_refl].
Qed.

Lemma first_occurrences_NoDup (paths : list str) :
  NoDup (first_occurrences paths).
Proof.
  induction paths as [|p paths IH] using rev_ind.
  - constructor.
  - rewrite first_occurrences_snoc.
    destruct (existsb (str_eqb p) (first_occurrences paths)) eqn:E; [exact IH|].
    apply NoDup_app; [exact IH | repeat constructor; intros [] |].
    intros x Hx [<-|[]].
    apply existsb_str_eqb_In in Hx. congruence.
Qed.

(** A property of the state that every turn of the outer loop keeps is
    kept by the whole scan. *)
Lemma run_invariant (I : ex_state -> Prop) (lines : list str) :
  (forall i raw st,
      nth_error lines i = Some raw -> I st -> I (snd (visit lines i raw st))) ->
  forall n i st, length lines - i <= n -> I st -> I (run lines i st).
Proof.
  intros Hstep. induction n as [|n IH]; intros i st Hn Hst.
  - rewrite run_done by lia. assumption.
  - destruct (nth_error lines i) as [raw|] eqn:E.
    + assert (Hi : i < length lines) by (apply nth_error_Some; congruence).
      rewrite (run_step _ _ _ st E).
      pose proof (Hstep i raw st E Hst) as Hst'.
      destruct (visit lines i raw st) as [i' st'] eqn:V.
      apply visit_bounds in V; [|assumption]. simpl in *.
      apply IH; [lia | assumption].
    + rewrite run_done; [assumption|]. apply nth_error_None; assumption.
Qed.

(** X1: the keys of the extracted mapping, in iteration order, are the
    paths of the found-artifact lines printed, each at its first
    occurrence; no key is there twice. *)
Theorem keys_follow_first_reports (lines : list str) :
  dict_keys (artifacts (extract_lines lines))
  = first_occurrences (reported_paths (stdout (extract_lines lines)))
  /\ NoDup (dict_keys (artifacts (extract_lines lines))).
Proof.
  assert (E : dict_keys (artifacts (extract_lines lines))
              = first_occurrences (reported_paths (stdout (extract_lines lines)))).
  { apply (run_invariant
             (fun st => dict_keys (artifacts st)
                        = first_occurrences (reported_paths (stdout st)))
             lines) with (n := length lines); [|lia|reflexivity].
    intros i raw st _ Hst. rewrite visit_block.
    destruct (block_at lines i raw) as [[[[p c] v] k]|]; simpl; [|exact Hst].
    rewrite dict_keys_set_order, reported_paths_app.
    change (reported_paths [FoundArtifact p v]) with [p].
    rewrite first_occurrences_snoc, dict_mem_keys, Hst. reflexivity. }
  split; [exact E|]. rewrite E. apply first_occurrences_NoDup.
Qed.

Lemma find_fence_no_fence (rest : list str) (j : nat) :
  Forall (fun l => is_fence l = false) rest -> find_fence rest j = None.
Proof.
  unfold is_fence. intros Hall. revert j.
  induction Hall as [|l rest Hf _ IH]; simpl; intros j; [reflexivity|].
  rewrite Hf. destruct (FILE_PATH_PATTERN_match (strip l)); [reflexivity | apply IH].
Qed.

Lemma Forall_skipn_lines (P : str -> Prop) (n : nat) (lines : list str) :
  Forall P lines -> Forall P (skipn n lines).
Proof.
  intros Hall. rewrite <- (firstn_skipn n lines) in Hall.
  apply Forall_app in Hall. tauto.
Qed.

Lemma run_idle (lines : list str) :
  (forall i raw, nth_error lines i = Some raw -> block_at lines i raw = None) ->
  extract_lines lines = empty_state.
Proof.
  intros Hnone.
  apply (run_invariant (fun st => st = empty_state) lines)
    with (n := length lines); [|lia|reflexivity].
  intros i raw st Hn ->. rewrite visit_block, (Hnone i raw Hn). reflexivity.
Qed.

(** X2: a document with no line whose trimmed form opens with three
    backticks gives the empty mapping, and nothing is printed. *)
Theorem no_fence_no_artifact (lines : list str) :
  Forall (fun l => is_fence l = false) lines ->
  extract_lines lines = empty_state.
Proof.
  intros Hall. apply run_idle. intros i raw _. unfold block_at.
  destruct (FILE_PATH_PATTERN_match (strip raw)); [|reflexivity].
  destruct (is_valid_path _); [|reflexivity].
  rewrite find_fence_no_fence; [reflexivity|].
  apply Forall_skipn_lines; assumption.
Qed.

Lemma no_fence_no_artifact_witness : extract_lines doc_prose = empty_state.
Proof.
  apply (no_fence_no_artifact doc_prose). repeat constructor.
Defined.

(** X3: a document with no line whose trimmed form opens with a bolded
    span gives the empty mapping, whatever fenced blocks it holds. *)
Theorem no_header_no_artifact (lines : list str) :
  Forall (fun l => is_header_candidate l = false) lines ->
  extract_lines lines = empty_state.
Proof.
  intros Hall. apply run_idle. intros i raw Hn. unfold block_at.
  rewrite Forall_forall in Hall. specialize (Hall raw (nth_error_In _ _ Hn)).
  unfold is_header_candidate in Hall.
  destruct (FILE_PATH_PATTERN_match (strip raw)); [discriminate | reflexivity].
Qed.

Lemma no_header_no_artifact_witness : extract_lines doc_headless = empty_state.
Proof.
  apply (no_header_no_artifact doc_headless). repeat constructor.
Defined.

Lemma find_fence_inv (rest : list str) (j j' : nat) :
  find_fence rest j = Some j' ->
  exists gap op tail,
    rest = gap ++ op :: tail
    /\ Forall (fun l => is_fence l = false /\ is_header_candidate l = false) gap
    /\ is_fence op = true
    /\ j' = j + length gap.
Proof.
  unfold is_fence, is_header_candidate.
  revert j; induction rest as [|l rest IH]; simpl; intros j Hf; [discriminate|].
  destruct (CODE_BLOCK_PATTERN_match (strip l)) eqn:Ef.
  - inversion Hf; subst. exists [], l, rest. simpl.
    repeat split; [constructor | assumption | lia].
  - destruct (FILE_PATH_PATTERN_match (strip l)) eqn:Eh; [discriminate|].
    destruct (IH _ Hf) as [gap [op [tail [-> [Hgap [Hop ->]]]]]].
    exists (l :: gap), op, tail. simpl. repeat split; [|assumption|lia].
    constructor; [|assumption]. rewrite Ef, Eh. split; reflexivity.
Qed.

Lemma collect_inv (rest : list str) (k : nat) :
  exists tail,
    rest = fst (collect rest k) ++ tail
    /\ Forall (fun l => is_fence l = false) (fst (collect rest k))
    /\ (tail = [] \/ exists c tail', tail = c :: tail' /\ is_fence c = true)
    /\ snd (collect rest k) = k + length (fst (collect rest k)).
Proof.
  unfold is_fence, CODE_BLOCK_PATTERN_match.
  revert k; induction rest as [|l rest IH]; simpl; intros k.
  - exists []. simpl. repeat split; [constructor | left; reflexivity | lia].
  - destruct (startswith fence (strip l)) eqn:Ef; simpl.
    + exists (l :: rest). repeat split; [constructor | | lia].
      right. exists l, rest. split; [reflexivity | assumption].
    + destruct (IH (S k)) as [tail [E [Hall [Ht Hk]]]].
      destruct (collect rest (S k)) as [body k']; simpl in *.
      exists tail. repeat split; [congruence | | assumption | lia].
      constructor; assumption.
Qed.

(** X4: an artifact is recorded at a line only when the document reads,
    from that line on: the valid header, lines that are neither fence nor
    header, an opening fence, lines without fence, and then a closing
    fence or the end; the content is the body, and the scan goes on after
    the closing fence. *)
Theorem recorded_block_shape (lines : list str) (i : nat) (raw p c : str)
    (v : bool) (k : nat) :
  nth_error lines i = Some raw ->
  block_at lines i raw = Some (p, c, v, k) ->
  exists pre gap op body rest raw_header,
    lines = pre ++ raw :: gap ++ op :: body ++ rest
    /\ length pre = i
    /\ FILE_PATH_PATTERN_match (strip raw) = Some raw_header
    /\ is_valid_path (candidate_path raw_header) = true
    /\ Forall (fun l => is_fence l = false /\ is_header_candidate l = false) gap
    /\ is_fence op = true
    /\ Forall (fun l => is_fence l = false) body
    /\ (rest = [] \/ exists cl rest', rest = cl :: rest' /\ is_fence cl = true)
    /\ p = replace backslash slash (candidate_path raw_header)
    /\ c = concat body
    /\ v = contains bullet raw_header
    /\ k = i + length gap + 2 + length body.
Proof.
  intros Hn B.
  destruct (nth_error_split _ _ Hn) as [pre [post [-> Hlen]]]. subst i.
  unfold block_at in B.
  destruct (FILE_PATH_PATTERN_match (strip raw)) as [raw_header|] eqn:Hm;
    [|discriminate].
  destruct (is_valid_path (candidate_path raw_header)) eqn:Hv; [|discriminate].
  rewrite skipn_past in B.
  destruct (find_fence post (S (length pre))) as [j|] eqn:Ej; [|discriminate].
  destruct (find_fence_inv _ _ _ Ej) as [gap [op [tail [-> [Hgap [Hop ->]]]]]].
  replace (pre ++ raw :: gap ++ op :: tail)
    with ((pre ++ raw :: gap) ++ op :: tail) in B
    by (rewrite <- app_assoc; reflexivity).
  replace (S (length pre) + length gap) with (length (pre ++ raw :: gap)) in B
    by (rewrite length_app; simpl; lia).
  rewrite skipn_past in B.
  destruct (collect_inv tail (S (length (pre ++ raw :: gap))))
    as [rest [E [Hbody [Hrest Hk]]]].
  destruct (collect tail (S (length (pre ++ raw :: gap)))) as [body k0].
  simpl in E, Hbody, Hk. inversion B; subst.
  exists pre, gap, op, body, rest, raw_header.
  repeat split; try assumption; try reflexivity.
  rewrite length_app; simpl; lia.
Qed.

Lemma recorded_block_shape_witness :
  exists pre gap op body rest raw_header,
    doc_two_lines = pre ++ ln "**a.txt**" :: gap ++ op :: body ++ rest
    /\ length pre = 0
    /\ FILE_PATH_PATTERN_match (strip (ln "**a.txt**")) = Some raw_header
    /\ is_valid_path (candidate_path raw_header) = true
    /\ Forall (fun l => is_fence l = false /\ is_header_candidate l = false) gap
    /\ is_fence op = true
    /\ Forall (fun l => is_fence l = false) body
    /\ (rest = [] \/ exists cl rest', rest = cl :: rest' /\ is_fence cl = true)
    /\ lit "a.txt" = replace backslash slash (candidate_path raw_header)
    /\ ln "x" ++ ln "y" = concat body
    /\ false = contains bullet raw_header
    /\ 4 = 0 + length gap + 2 + length body.
Proof.
  apply (recorded_block_shape doc_two_lines 0 (ln "**a.txt**") (lit "a.txt")
           (ln "x" ++ ln "y") false 4).
  - reflexivity.
  - vm_compute; reflexivity.
Defined.

(** The scan never looks back: from a position on, it reads the lines as
    if the document began there. *)
Lemma find_fence_shift (rest : list str) (n j : nat) :
  find_fence rest (n + j) = option_map (Nat.add n) (find_fence rest j).
Proof.
  revert j; induction rest as [|l rest IH]; simpl; intros j; [reflexivity|].
  destruct (CODE_BLOCK_PATTERN_match (strip l)); [reflexivity|].
  destruct (FILE_PATH_PATTERN_match (strip l)); [reflexivity|].
  rewrite <- IH. f_equal; lia.
Qed.

Lemma collect_shift (rest : list str) (n k : nat) :
  collect rest (n + k) = (fst (collect rest k), n + snd (collect rest k)).
Proof.
  revert k; induction rest as [|l rest IH]; simpl; intros k; [reflexivity|].
  destruct (startswith fence (strip l)); [reflexivity|].
  replace (S (n + k)) with (n + S k) by lia. rewrite IH.
  destruct (collect rest (S k)); reflexivity.
Qed.

Lemma skipn_shift (pre rest : list str) (n : nat) :
  skipn (length pre + n) (pre ++ rest) = skipn n rest.
Proof. induction pre; simpl; auto. Qed.

Lemma visit_shift (pre rest : list str) (i : nat) (raw : str) (st : ex_state) :
  visit (pre ++ rest) (length pre + i) raw st
  = (length pre + fst (visit rest i raw st), snd (visit rest i raw st)).
Proof.
  unfold visit.
  destruct (FILE_PATH_PATTERN_match (strip raw)) as [raw_header|]; [|reflexivity].
  destruct (negb (is_valid_path (candidate_path raw_header))); [reflexivity|].
  replace (S (length pre + i)) with (length pre + S i) by lia.
  rewrite skipn_shift, find_fence_shift.
  destruct (find_fence (skipn (S i) rest) (S i)) as [j|]; cbn [option_map];
    [|reflexivity].
  replace (S (length pre + j)) with (length pre + S j) by lia.
  rewrite skipn_shift, collect_shift.
  destruct (collect (skipn (S j) rest) (S j)); reflexivity.
Qed.

Lemma run_shift (pre rest : list str) :
  forall n i st,
    length rest - i <= n ->
    run (pre ++ rest) (length pre + i) st = run rest i st.
Proof.
  induction n as [|n IH]; intros i st Hn.
  - rewrite !run_done; [reflexivity | lia | rewrite length_app; lia].
  - destruct (nth_error rest i) as [raw|] eqn:E.
    + assert (Hi : i < length rest) by (apply nth_error_Some; congruence).
      rewrite (run_step rest i raw st E).
      rewrite (run_step (pre ++ rest) (length pre + i) raw st)
        by (rewrite nth_error_app2 by lia;
            replace (length pre + i - length pre) with i by lia; exact E).
      rewrite visit_shift. simpl.
      destruct (visit rest i raw st) as [i' st'] eqn:V. simpl.
      apply visit_bounds in V; [|assumption].
      replace (S (length pre + i')) with (length pre + S i') by lia.
      apply IH. lia.
    + apply nth_error_None in E.
      rewrite !run_done; [reflexivity | lia | rewrite length_app; lia].
Qed.

Lemma run_over_prose (pre rest : list str) (st : ex_state) :
  Forall (fun l => is_header_candidate l = false) pre ->
  forall n i, i + n = length pre ->
    run (pre ++ rest) i st = run (pre ++ rest) (length pre) st.
Proof.
  intros Hall. induction n as [|n IH]; intros i Hi.
  - replace i with (length pre) by lia. reflexivity.
  - destruct (nth_error pre i) as [raw|] eqn:E;
      [|apply nth_error_None in E; lia].
    rewrite Forall_forall in Hall.
    pose proof (Hall raw (nth_error_In _ _ E)) as Hh.
    rewrite (run_visit (pre ++ rest) i raw st).
    + apply IH; lia.
    + rewrite nth_error_app1 by lia. exact E.
    + unfold visit. unfold is_header_candidate in Hh.
      destruct (FILE_PATH_PATTERN_match (strip raw)); [discriminate | reflexivity].
Qed.

(** X5: lines put before a document change nothing when none of them
    opens with a bolded span: the extraction gives the same mapping and
    prints the same. *)
Theorem leading_prose_ignored (pre rest : list str) :
  Forall (fun l => is_header_candidate l = false) pre ->
  extract_lines (pre ++ rest) = extract_lines rest.
Proof.
  intros Hall. unfold extract_lines.
  rewrite (run_over_prose pre rest _ Hall (length pre) 0 eq_refl).
  replace (length pre) with (length pre + 0) at 1 by lia.
  apply (run_shift pre rest (length rest)). lia.
Qed.

Lemma leading_prose_ignored_witness :
  extract_lines ([ln "# Notes"; ln "```"; ln ""] ++ doc_two_lines)
  = extract_lines doc_two_lines.
Proof.
  apply (leading_prose_ignored [ln "# Notes"; ln "```"; ln ""] doc_two_lines).
  repeat constructor.
Defined.

(** ** More on the lookup *)

Lemma suffix_loop_none (keys : list str) (found : dict) (R : str) :
  suffix_loop keys found R = (None, SrcEmpty)
  <-> Forall (fun key => ~ boundary_suffix R key) keys.
Proof.
  induction keys as [|key keys IH]; simpl.
  - split; [constructor | reflexivity].
  - destruct (endswith R key && (str_eqb R key || endswith R (slash :: key))) eqn:T.
    + split; [discriminate|]. intros Hall. inversion Hall; subst.
      apply boundary_test in T. contradiction.
    + rewrite IH. split.
      * intros Hall. constructor; [|assumption].
        intros Hb. apply boundary_test in Hb. congruence.
      * intros Hall. inversion Hall; assumption.
Qed.

(** X6: the lookup finds nothing exactly when the path is no key and no
    key is a boundary-safe suffix of it. *)
Theorem no_match_iff (found : dict) (R : str) :
  lookup_artifact found R = (None, SrcEmpty)
  <-> dict_mem R found = false
      /\ Forall (fun key => ~ boundary_suffix R key) (dict_keys found).
Proof.
  unfold lookup_artifact. destruct (dict_mem R found) eqn:Hm.
  - split; [discriminate | intros [? _]; discriminate].
  - rewrite suffix_loop_none. tauto.
Qed.

(** X7: when the path is no key, the first key in iteration order that
    is a boundary-safe suffix of it is used, whatever comes after it: a
    longer suffix later in the mapping is not looked at. *)
Theorem first_suffix_key_wins (found : dict) (R K v : str)
    (before after : list str) :
  dict_mem R found = false ->
  dict_keys found = before ++ K :: after ->
  Forall (fun key => ~ boundary_suffix R key) before ->
  boundary_suffix R K ->
  dict_get K found = Some v ->
  lookup_artifact found R = (Some v, SrcArtifactMatched K).
Proof.
  intros Hm Hk Hb HK Hv. unfold lookup_artifact.
  rewrite Hm, Hk, (suffix_loop_first _ _ _ _ _ Hb HK), Hv. reflexivity.
Qed.

Lemma first_suffix_key_wins_witness :
  lookup_artifact found_two_suffixes (lit "app/src/foo.ts")
  = (Some (lit "short"), SrcArtifactMatched (lit "foo.ts")).
Proof.
  apply (first_suffix_key_wins found_two_suffixes (lit "app/src/foo.ts")
           (lit "foo.ts") (lit "short") [] [lit "src/foo.ts"]).
  - reflexivity.
  - reflexivity.
  - constructor.
  - right. exists (lit "app/src"). reflexivity.
  - reflexivity.
Defined.

(** ** More on the traversal *)

Section TraversalFacts.

Variable H : host.

Lemma for_each_invariant (I : rs_state H -> Prop)
    (body : item -> rs_state H -> rs_state H * bool) (structure : list item) :
  Forall (fun it => forall st, I st -> I (fst (body it st))) structure ->
  forall st, I st -> I (fst (for_each body structure st)).
Proof.
  induction 1 as [|it rest Hit _ IH]; simpl; intros st Hst; [assumption|].
  specialize (Hit st Hst). destruct (body it st) as [st' ok]; simpl in Hit.
  destruct ok; [apply IH; assumption | assumption].
Qed.

(** A property of the state kept by a file entry, by the line printed
    for a directory and by a change of the world is kept by the whole
    traversal, aborted or not. *)
Lemma traversal_invariant (I : rs_state H -> Prop) (found : dict)
    (base_dir : Path H) :
  (forall current_path file_name content template st,
      I st ->
      I (fst (process_file found base_dir current_path file_name
                content template st))) ->
  (forall st rel w,
      I st ->
      I {| world := world st; empty_files := empty_files st;
           console := console st ++ [CreatingDirectory rel] |}
      /\ I {| world := w; empty_files := empty_files st;
              console := console st ++ [CreatingDirectory rel] |}) ->
  forall structure current_path st,
    I st ->
    I (fst (create_project_from_yaml structure found base_dir current_path st)).
Proof.
  intros Hfile Hdir.
  assert (Hitem : forall it current_path st,
             I st -> I (fst (process_item found base_dir current_path it st))).
  { induction it as [|d ch f c t IH] using item_nested_ind;
      intros current_path st Hst; [assumption|].
    destruct d as [dir_name|]; simpl.
    - destruct (relative_to H (joinpath H current_path dir_name) base_dir)
        as [rel|]; [|assumption].
      destruct (mkdir H (world st) (joinpath H current_path dir_name)) as [w|].
      + apply (for_each_invariant I).
        * eapply Forall_impl; [|exact IH]. intros x Hx st0. apply Hx.
        * exact (proj2 (Hdir st rel w Hst)).
      + exact (proj1 (Hdir st rel (world st) Hst)).
    - destruct f as [file_name|]; [apply Hfile|]; assumption. }
  intros structure current_path st Hst. unfold create_project_from_yaml.
  apply (for_each_invariant I); [|assumption].
  apply Forall_forall. intros it _ st0. apply Hitem.
Qed.

Lemma extends_refl (st : rs_state H) : extends H st st.
Proof. split; exists []; rewrite app_nil_r; reflexivity. Qed.

Lemma extends_trans (a b c : rs_state H) :
  extends H a b -> extends H b c -> extends H a c.
Proof.
  intros [[e1 E1] [m1 M1]] [[e2 E2] [m2 M2]]. split.
  - exists (e1 ++ e2). rewrite E2, E1, app_assoc. reflexivity.
  - exists (m1 ++ m2). rewrite M2, M1, app_assoc. reflexivity.
Qed.

Lemma process_file_extends (found : dict) (base_dir current_path : Path H)
    (file_name : str) (content : option yaml_text) (template : option str)
    (st : rs_state H) :
  extends H st (fst (process_file found base_dir current_path file_name
                       content template st)).
Proof.
  unfold process_file.
  destruct (relative_to H (joinpath H current_path file_name) base_dir) as [rel|];
    [|apply extends_refl].
  destruct (resolve_file _ _ _ _ _) as [[c src] printed].
  destruct (write_text H (world st) _ _) as [w ok]. simpl. split; simpl.
  - destruct (source_is_empty src); eexists; [reflexivity|].
    symmetry; apply app_nil_r.
  - eexists; reflexivity.
Qed.

(** What a file entry prints before its last line is about the
    template. *)
Lemma resolve_file_printed (found : dict) (R : str) (content : option yaml_text)
    (template : option str) (template_path : str -> str)
    (read : str -> read_outcome str) :
  Forall (fun m => forall R' src, m <> CreatedFile R' src /\ m <> ErrorCreatingFile R')
         (snd (resolve_file found R content template template_path read)).
Proof.
  unfold resolve_file.
  destruct (lookup_artifact found R) as [[text|] s0]; [constructor|].
  destruct content as [y|]; [constructor|].
  destruct template as [t|]; [|constructor].
  destruct (read t); simpl; repeat constructor; discriminate.
Qed.

Lemma write_failed_at_more (base_dir : Path H) (R : str) (out more : list message) :
  write_failed_at H base_dir R out -> write_failed_at H base_dir R (out ++ more).
Proof.
  intros [file_path [rel [E1 [E2 Hin]]]]. exists file_path, rel.
  repeat split; try assumption. apply in_or_app; left; assumption.
Qed.

Lemma process_file_listing (found : dict) (base_dir current_path : Path H)
    (file_name : str) (content : option yaml_text) (template : option str)
    (st : rs_state H) :
  listing_agrees H base_dir st ->
  listing_agrees H base_dir
    (fst (process_file found base_dir current_path file_name
            content template st)).
Proof.
  unfold process_file. intros [Hc He].
  destruct (relative_to H (joinpath H current_path file_name) base_dir)
    as [rel|] eqn:Hrel; [|split; assumption].
  pose proof (resolve_file_printed found (replace backslash slash rel) content
                template
                (fun t => path_str H (joinpath H base_dir t))
                (fun t => read_text H (world st) (joinpath H base_dir t))) as Hp.
  destruct (resolve_file _ _ _ _ _ _) as [[c src] printed].
  destruct (write_text H (world st) _ _) as [w ok]. simpl in *.
  rewrite Forall_forall in Hp. split; simpl.
  - intros R Hin. rewrite !in_app_iff in Hin.
    destruct Hin as [Hin|[Hin|[Hin|[]]]].
    + specialize (Hc R Hin). destruct (source_is_empty src);
        [apply in_or_app; left|]; assumption.
    + destruct (Hp _ Hin R SrcEmpty) as [Hne _]. congruence.
    + destruct ok; [|discriminate]. inversion Hin; subst. simpl.
      apply in_or_app; right; left; reflexivity.
  - intros R Hin.
    assert (Hold : forall more,
               In R (empty_files st) ->
               In (CreatedFile R SrcEmpty) (console st ++ more)
               \/ write_failed_at H base_dir R (console st ++ more)).
    { intros more Hi. destruct (He R Hi);
        [left; apply in_or_app; left | right; apply write_failed_at_more];
        assumption. }
    destruct (source_is_empty src) eqn:Es; [|apply Hold; assumption].
    apply in_app_iff in Hin. destruct Hin as [Hin|[<-|[]]];
      [apply Hold; assumption|].
    destruct src; try discriminate.
    destruct ok.
    + left. apply in_or_app; right; apply in_or_app; right; left; reflexivity.
    + right. exists (joinpath H current_path file_name), rel.
      split; [exact Hrel|]. split; [reflexivity|].
      apply in_or_app; right; apply in_or_app; right; left; reflexivity.
Qed.

Lemma directory_step_listing (base_dir : Path H) (st : rs_state H) (rel : str)
    (w : World H) :
  listing_agrees H base_dir st ->
  listing_agrees H base_dir
    {| world := w; empty_files := empty_files st;
       console := console st ++ [CreatingDirectory rel] |}.
Proof.
  intros [Hc He]. split; simpl.
  - intros R Hin. apply in_app_iff in Hin.
    destruct Hin as [Hin|[Hin|[]]]; [auto | discriminate].
  - intros R Hin. destruct (He R Hin);
      [left; apply in_or_app; left | right; apply write_failed_at_more];
      assumption.
Qed.



End TraversalFacts.

(** X8: a file entry with a content key and no matching artifact gets
    that content, null and the empty text included: the template is not
    read, and the path does not go to the empty-files list. *)
Theorem inline_content_wins (H : host) (found : dict)
    (base_dir current_path : Path H) (file_name rel : str) (y : yaml_text)
    (template : option str) (st : rs_state H) :
  relative_to H (joinpath H current_path file_name) base_dir = Some rel ->
  lookup_artifact found (replace backslash slash rel) = (None, SrcEmpty) ->
  let R := replace backslash slash rel in
  let st' := fst (process_file found base_dir current_path file_name
                    (Some y) template st) in
  empty_files st' = empty_files st
  /\ (console st' = console st ++ [CreatedFile R SrcYamlContent]
      \/ console st'
         = console st
           ++ [ErrorCreatingFile
                 (path_str H (joinpath H current_path file_name))])
  /\ world st'
     = fst (write_text H (world st) (joinpath H current_path file_name)
              (match y with YNull => [] | YText s => s end)).
Proof.
  intros Hrel Hl R st'. unfold st', process_file, resolve_file.
  rewrite Hrel, Hl. cbn [source_is_empty].
  replace (written_text match y with YNull => None | YText s => Some s end)
    with (match y with YNull => [] | YText s => s end)
    by (destruct y; reflexivity).
  destruct (write_text H (world st) (joinpath H current_path file_name) _)
    as [w ok]. simpl.
  split; [reflexivity|]. split; [|reflexivity].
  destruct ok; [left | right]; reflexivity.
Qed.

Lemma inline_content_wins_witness :
  empty_files
    (fst (@process_file WinHost.h [] [] [] (lit "a.txt") (Some YNull)
            (Some (lit "t.tpl")) WinHost.start)) = []
  /\ dict_get (lit "a.txt")
       (world (fst (@process_file WinHost.h [] [] [] (lit "a.txt") (Some YNull)
                      (Some (lit "t.tpl")) WinHost.start))) = Some [].
Proof.
  destruct (inline_content_wins WinHost.h [] [] [] (lit "a.txt") (lit "a.txt")
              YNull (Some (lit "t.tpl")) WinHost.start eq_refl eq_refl)
    as [He [_ Hw]].
  split; [exact He|]. rewrite Hw. reflexivity.
Defined.

(** X9: the traversal only appends: the empty-files list and the lines
    printed it is given are kept, in order, at the front of what it
    leaves, also when an exception ends it. *)
Theorem traversal_only_appends (H : host) (structure : list item) (found : dict)
    (base_dir current_path : Path H) (st : rs_state H) :
  extends H st
    (fst (create_project_from_yaml structure found base_dir current_path st)).
Proof.
  apply (traversal_invariant H (extends H st)).
  - intros cp name content template st0 Hst0.
    exact (extends_trans H _ _ _ Hst0 (process_file_extends H _ _ _ _ _ _ st0)).
  - intros st0 rel w [He [m Hm]]. split; (split; simpl; [exact He|]);
      exists (m ++ [CreatingDirectory rel]); rewrite Hm, app_assoc; reflexivity.
  - apply extends_refl.
Qed.

(** X10: after a traversal begun with nothing listed and nothing
    printed, every file shown as created from nothing is in the
    empty-files list, and for every listed path there is the line that
    shows it as created from nothing, or the error line, with the file's
    own path, of a file that has this relative path. *)
Theorem listing_matches_report (H : host) (structure : list item) (found : dict)
    (base_dir current_path : Path H) (w : World H) :
  listing_agrees H base_dir
    (fst (create_project_from_yaml structure found base_dir current_path
            {| world := w; empty_files := []; console := [] |})).
Proof.
  apply (traversal_invariant H (listing_agrees H base_dir)).
  - intros cp name content template st0. apply process_file_listing.
  - intros st0 rel w0 Hst0. split; apply directory_step_listing; assumption.
  - split; simpl; intros R [].
Qed.



(** ** Writing the artifacts without a tree *)

Lemma split_char_cons (sep : char) (s : str) :
  exists part parts, split_char sep s = part :: parts.
Proof.
  induction s as [|c s [part [parts E]]]; simpl.
  - exists [], []. reflexivity.
  - destruct (N.eqb c sep); [eexists; eexists; reflexivity|].
    rewrite E. eexists; eexists; reflexivity.
Qed.

Lemma split_char_join (sep : char) (s : str) :
  join [sep] (split_char sep s) = s.
Proof.
  induction s as [|c s IH]; simpl; [reflexivity|].
  destruct (split_char_cons sep s) as [part [parts E]].
  destruct (N.eqb c sep) eqn:Ec.
  - apply N.eqb_eq in Ec; subst c. rewrite E in *.
    rewrite <- IH. reflexivity.
  - rewrite E in *. destruct parts as [|q parts]; rewrite <- IH; reflexivity.
Qed.

Lemma split_char_parts (sep : char) (s : str) :
  Forall (fun part => forall c, In c part -> c <> sep /\ In c s) (split_char sep s).
Proof.
  induction s as [|c s IH]; simpl.
  - repeat constructor; contradiction.
  - assert (Hs : Forall (fun part => forall x, In x part -> x <> sep /\ In x (c :: s))
                   (split_char sep s)).
    { eapply Forall_impl; [|exact IH]. intros part Hp x Hx.
      destruct (Hp x Hx). split; [assumption | right; assumption]. }
    destruct (N.eqb c sep) eqn:Ec.
    + constructor; [intros x []| exact Hs].
    + apply N.eqb_neq in Ec.
      destruct (split_char sep s) as [|part parts].
      * constructor; [|constructor].
        intros x [<-|[]]. split; [assumption | left; reflexivity].
      * inversion Hs as [|? ? Hpart Hparts]; subst. constructor; [|exact Hparts].
        intros x [<-|Hx]; [split; [assumption | left; reflexivity]|].
        exact (Hpart x Hx).
Qed.

(** X13: the parts of an extracted key that are handed to the path join
    hold neither a slash nor a backslash, there is at least one, and put
    together with slashes they give the key back. *)
Theorem artifact_path_parts (lines : list str) (key : str) :
  In key (dict_keys (artifacts (extract_lines lines))) ->
  Forall (fun part => ~ In slash part /\ ~ In backslash part)
         (split_char slash key)
  /\ split_char slash key <> []
  /\ join [slash] (split_char slash key) = key.
Proof.
  intros Hin.
  assert (Hfree : ~ In backslash key).
  { pose proof (run_keys (fun k => ~ In backslash k) lines
                  (fun i raw p c v k B => proj1 (block_at_key _ _ _ _ _ _ _ B))
                  (length lines) 0 empty_state) as K.
    assert (Hall : Forall (fun k => ~ In backslash k)
                     (dict_keys (artifacts (extract_lines lines))))
      by (apply K; [lia | constructor]).
    rewrite Forall_forall in Hall. exact (Hall key Hin). }
  split; [|split; [|apply split_char_join]].
  - eapply Forall_impl; [|apply split_char_parts].
    intros part Hp. split; intros Hc; destruct (Hp _ Hc) as [Hne Hk];
      [congruence | contradiction].
  - destruct (split_char_cons slash key) as [part [parts E]]. rewrite E.
    discriminate.
Qed.

Lemma artifact_path_parts_witness :
  join [slash] (split_char slash (lit "src/util.py")) = lit "src/util.py".
Proof.
  refine (proj2 (proj2 (artifact_path_parts doc_backslash (lit "src/util.py") _))).
  vm_compute. left; reflexivity.
Defined.

Section MainFacts.

Variable H : host.
Variable P : platform H.

Lemma write_artifacts_world (items : dict) (base_dir : Path H) (w : World H) :
  fst (write_artifacts H P items base_dir w)
  = fold_left
      (fun w' kv => fst (write_text H w' (target H P base_dir (fst kv)) (snd kv)))
      items w
  /\ length (snd (write_artifacts H P items base_dir w)) = length items.
Proof.
  revert w; induction items as [|[k v] items IH]; simpl; intros w.
  - split; reflexivity.
  - destruct (write_text H w (target H P base_dir k) v) as [w1 ok].
    specialize (IH w1).
    destruct (write_artifacts H P items base_dir w1) as [w2 out]; simpl in *.
    destruct IH as [E L]. split; [exact E | rewrite L; reflexivity].
Qed.

Lemma write_artifacts_line (before after : dict) (k v : str)
    (base_dir : Path H) (w : World H) :
  nth_error (snd (write_artifacts H P (before ++ (k, v) :: after) base_dir w))
            (length before)
  = Some (if snd (write_text H
                    (fold_left
                       (fun w' kv =>
                          fst (write_text H w' (target H P base_dir (fst kv))
                                 (snd kv)))
                       before w)
                    (target H P base_dir k) v)
          then Wrote (path_str H (target H P base_dir k))
          else ErrorWriting (path_str H (target H P base_dir k))).
Proof.
  revert w; induction before as [|[k0 v0] before IH]; simpl; intros w.
  - destruct (write_text H w (target H P base_dir k) v) as [w1 ok].
    destruct (write_artifacts H P after base_dir w1) as [w2 out]. reflexivity.
  - destruct (write_text H w (target H P base_dir k0) v0) as [w1 ok].
    specialize (IH w1).
    destruct (write_artifacts H P (before ++ (k, v) :: after) base_dir w1)
      as [w2 out].
    exact IH.
Qed.

End MainFacts.

(** X14: writing the artifacts without a tree touches nothing and prints
    one line when the mapping is empty; otherwise it writes every
    artifact once, in the order of the mapping, with its own content,
    under the base directory at the joined parts of its key, each write
    in the world the writes before it left; after the opening line there
    is one line for each artifact, which says that the file was written
    exactly when that write succeeded: a failure does not stop the
    others. *)
Theorem flat_writer_writes_each (H : host) (P : platform H)
    (found before after : dict) (k v : str) (base_dir : Path H) (w : World H) :
  found = before ++ (k, v) :: after ->
  let write := fun (w' : World H) (kv : str * str) =>
    fst (write_text H w' (target H P base_dir (fst kv)) (snd kv)) in
  fst (create_files_from_artifacts H P found base_dir w)
  = fold_left write found w
  /\ length (snd (create_files_from_artifacts H P found base_dir w))
     = S (length found)
  /\ nth_error (snd (create_files_from_artifacts H P found base_dir w)) 0
     = Some (CreatingStructureIn (path_str H base_dir))
  /\ nth_error (snd (create_files_from_artifacts H P found base_dir w))
               (S (length before))
     = Some (if snd (write_text H (fold_left write before w)
                       (target H P base_dir k) v)
             then Wrote (path_str H (target H P base_dir k))
             else ErrorWriting (path_str H (target H P base_dir k)))
  /\ create_files_from_artifacts H P [] base_dir w = (w, [NoArtifactsToCreate]).
Proof.
  intros -> write.
  pose proof (write_artifacts_world H P (before ++ (k, v) :: after) base_dir w)
    as [Ew El].
  pose proof (write_artifacts_line H P before after k v base_dir w) as En.
  unfold create_files_from_artifacts.
  destruct (before ++ (k, v) :: after) as [|kv rest] eqn:E.
  - destruct before; discriminate.
  - destruct (write_artifacts H P (kv :: rest) base_dir w) as [w' out].
    simpl in *. repeat split; auto.
Qed.

Lemma flat_writer_writes_each_witness :
  dict_get (lit "b\c.txt")
    (fst (create_files_from_artifacts WinHost.h (WinPlatform.p [])
            found_two_files [lit "out"] []))
  = None
  /\ dict_get (lit "out\b\c.txt")
       (fst (create_files_from_artifacts WinHost.h (WinPlatform.p [])
               found_two_files [lit "out"] []))
     = Some (lit "y")
  /\ nth_error
       (snd (create_files_from_artifacts WinHost.h (WinPlatform.p [])
               found_two_files [lit "out"] [])) 2
     = Some (Wrote (lit "out\b\c.txt")).
Proof.
  pose proof (flat_writer_writes_each WinHost.h (WinPlatform.p [])
                found_two_files [(lit "a.txt", lit "x")] []
                (lit "b/c.txt") (lit "y") [lit "out"] [] eq_refl)
    as [Ew [_ [_ [En _]]]].
  rewrite Ew. split; [reflexivity|]. split; [reflexivity|]. exact En.
Defined.

(** ** [main] *)







Section MainProofs.

Variable H : host.
Variable P : platform H.










End MainProofs.

(** X15: when the document holds no fence line, or cannot be read, and
    there is no YAML structure file to use, [main] prints that there is
    nothing to do and returns: the file system is left as it was. *)
Theorem nothing_to_do_leaves_world (H : host) (P : platform H)
    (args : cli_args) (w : World H) :
  match read_lines P w (path_of P (markdown_file args)) with
  | ReadOk lines => Forall (fun l => is_fence l = false) lines
  | _ => True
  end ->
  match truthy (yaml_file args) with
  | Some y => path_exists P w (path_of P y) = Some false
  | None => True
  end ->
  main H P args w
  = (w,
     ProcessingMarkdown (path_str H (path_of P (markdown_file args)))
     :: map Said
          (snd (extract_artifacts_from_markdown
                  (path_str H (path_of P (markdown_file args)))
                  (read_lines P w (path_of P (markdown_file args)))))
     ++ [NothingToDo],
     true).
Proof.
  intros Hdoc Hyaml. unfold main.
  assert (Hnone : fst (extract_artifacts_from_markdown
                         (path_str H (path_of P (markdown_file args)))
                         (read_lines P w (path_of P (markdown_file args)))) = []).
  { destruct (read_lines P w (path_of P (markdown_file args))) as [lines| |];
      [|reflexivity|reflexivity].
    simpl. replace (extract_lines lines) with empty_state; [reflexivity|].
    symmetry. apply run_idle. intros i raw _. unfold block_at.
    destruct (FILE_PATH_PATTERN_match (strip raw)); [|reflexivity].
    destruct (is_valid_path _); [|reflexivity].
    rewrite find_fence_no_fence; [reflexivity|].
    apply Forall_skipn_lines; assumption. }
  destruct (extract_artifacts_from_markdown _ _) as [found printed].
  simpl in Hnone. subst found. unfold yaml_usable.
  destruct (truthy (yaml_file args)) as [y|]; simpl; [rewrite Hyaml|]; reflexivity.
Qed.

Lemma nothing_to_do_leaves_world_witness :
  main WinHost.h (WinPlatform.p []) args_notes
    [(lit "notes.md", WinPlatform.prose_md)]
  = ([(lit "notes.md", WinPlatform.prose_md)],
     [ProcessingMarkdown (lit "notes.md"); NothingToDo], true).
Proof.
  apply (nothing_to_do_leaves_world WinHost.h (WinPlatform.p []) args_notes
           [(lit "notes.md", WinPlatform.prose_md)]).
  - vm_compute. repeat constructor.
  - exact I.
Defined.


(** ** What is recorded: the content and the keys *)

Lemma readlines_aux_concat (text cur : str) :
  concat (readlines_aux cur text) = rev cur ++ text.
Proof.
  revert cur; induction text as [|c text IH]; intros cur; simpl.
  - destruct cur; [reflexivity|]. simpl. rewrite !app_nil_r. reflexivity.
  - destruct (N.eqb c newline); simpl; rewrite IH; simpl;
      rewrite <- app_assoc; reflexivity.
Qed.

Lemma block_at_content (lines : list str) (i : nat) (raw p c : str)
    (v : bool) (k : nat) :
  block_at lines i raw = Some (p, c, v, k) ->
  exists before body after, lines = before ++ body ++ after /\ c = concat body.
Proof.
  unfold block_at.
  destruct (FILE_PATH_PATTERN_match (strip raw)) as [raw_header|]; [|discriminate].
  destruct (is_valid_path (candidate_path raw_header)); [|discriminate].
  destruct (find_fence (skipn (S i) lines) (S i)) as [j|]; [|discriminate].
  destruct (collect_inv (skipn (S j) lines) (S j)) as [tail [E _]].
  destruct (collect (skipn (S j) lines) (S j)) as [body k0]. simpl in E.
  intros B; inversion B; subst.
  exists (firstn (S j) lines), body, tail. split; [|reflexivity].
  rewrite <- E. symmetry. apply firstn_skipn.
Qed.

(** X18: the content recorded under a key is a run of consecutive lines
    of the document, put together as they are: it occurs word for word in
    the text of the document. *)
Theorem content_is_verbatim (text p c : str) :
  dict_get p (artifacts (extract_lines (readlines text))) = Some c ->
  (exists before body after,
      readlines text = before ++ body ++ after /\ c = concat body)
  /\ exists front back, text = front ++ c ++ back.
Proof.
  intros Hget.
  assert (Hlines : exists before body after,
             readlines text = before ++ body ++ after /\ c = concat body).
  { revert p c Hget.
    apply (run_invariant
             (fun st => forall p c,
                  dict_get p (artifacts st) = Some c ->
                  exists before body after,
                    readlines text = before ++ body ++ after /\ c = concat body)
             (readlines text)) with (n := length (readlines text));
      [|lia|intros p c; discriminate].
    intros i raw st _ Hst p c. rewrite visit_block.
    destruct (block_at (readlines text) i raw) as [[[[p' c'] v] k]|] eqn:B;
      simpl; [|apply Hst].
    destruct (str_eqb p p') eqn:Ep.
    - apply str_eqb_eq in Ep; subst p'. rewrite dict_get_set_same.
      intros E; inversion E; subst. eapply block_at_content; eassumption.
    - apply str_eqb_neq in Ep. rewrite dict_get_set_other by assumption.
      apply Hst. }
  split; [exact Hlines|].
  destruct Hlines as [before [body [after [E ->]]]].
  exists (concat before), (concat after).
  assert (Ht : concat (readlines text) = text)
    by (unfold readlines; rewrite readlines_aux_concat; reflexivity).
  rewrite <- Ht at 1. rewrite E, !concat_app. reflexivity.
Qed.

Lemma content_is_verbatim_witness :
  exists front back,
    ln "# Notes" ++ ln "**a.txt**" ++ ln "```" ++ ln "x" ++ ln "```"
    = front ++ ln "x" ++ back.
Proof.
  refine (proj2 (content_is_verbatim
                   (ln "# Notes" ++ ln "**a.txt**" ++ ln "```" ++ ln "x" ++ ln "```")
                   (lit "a.txt") (ln "x") _)).
  vm_compute. reflexivity.
Defined.

Lemma star_free_run_clean (s : str) : ~ In star (fst (star_free_run s)).
Proof.
  induction s as [|c s IH]; simpl; [tauto|].
  destruct (N.eqb c star) eqn:Ec; simpl; [tauto|].
  destruct (star_free_run s) as [g rest]; simpl in *.
  apply N.eqb_neq in Ec. intros [E|Hin]; [congruence | contradiction].
Qed.

Lemma header_text_star_free (line g : str) :
  FILE_PATH_PATTERN_match line = Some g -> ~ In star g.
Proof.
  unfold FILE_PATH_PATTERN_match.
  destruct line as [|a [|b body]]; try discriminate.
  destruct (N.eqb a star && N.eqb b star); [|discriminate].
  pose proof (star_free_run_clean body) as Hc.
  destruct (star_free_run body) as [[|c g0] [|x [|y rest]]]; try discriminate.
  destruct (N.eqb x star && N.eqb y star); [|discriminate].
  intros E; inversion E; subst. exact Hc.
Qed.

Lemma split_first_subset (sep s : str) (c : char) :
  In c (split_first sep s) -> In c s.
Proof.
  induction s as [|x s IH]; simpl; [tauto|].
  destruct (startswith sep (x :: s)); simpl; [tauto|].
  intros [E|Hin]; auto.
Qed.

Lemma split_first_bullet_free (s : str) : ~ In bullet (split_first [bullet] s).
Proof.
  induction s as [|x s IH]; simpl; [tauto|].
  destruct (startswith [bullet] (x :: s)) eqn:Es; simpl; [tauto|].
  intros [E|Hin]; [|contradiction]. subst x.
  unfold startswith in Es. rewrite N.eqb_refl in Es. discriminate.
Qed.

Lemma lstrip_subset (s : str) (c : char) : In c (lstrip s) -> In c s.
Proof.
  induction s as [|x s IH]; simpl; [tauto|].
  destruct (is_space x); [auto | simpl; tauto].
Qed.

Lemma strip_subset (s : str) (c : char) : In c (strip s) -> In c s.
Proof.
  unfold strip, rstrip. intros Hin.
  apply in_rev in Hin. apply lstrip_subset in Hin. apply in_rev in Hin.
  apply lstrip_subset. exact Hin.
Qed.

Lemma lstrip_idem (s : str) : lstrip (lstrip s) = lstrip s.
Proof.
  induction s as [|x s IH]; simpl; [reflexivity|].
  destruct (is_space x) eqn:E; [exact IH|]. simpl. rewrite E. reflexivity.
Qed.

Lemma lstrip_keeps_end (l m : str) (c : char) :
  is_space c = false -> lstrip (l ++ c :: m) = lstrip l ++ c :: m.
Proof.
  intros Hc. induction l as [|x l IH]; simpl.
  - rewrite Hc. reflexivity.
  - destruct (is_space x); [exact IH | reflexivity].
Qed.

Lemma lstrip_head (s : str) (c : char) (t : str) :
  lstrip s = c :: t -> is_space c = false.
Proof.
  induction s as [|x s IH]; simpl; [discriminate|].
  destruct (is_space x) eqn:E; [exact IH|].
  intros Eq; inversion Eq; subst. exact E.
Qed.

Lemma rstrip_idem (y : str) : rstrip (rstrip y) = rstrip y.
Proof. unfold rstrip. rewrite rev_involutive, lstrip_idem. reflexivity. Qed.

Lemma lstrip_rstrip (y : str) : lstrip y = y -> lstrip (rstrip y) = rstrip y.
Proof.
  destruct y as [|c t]; [reflexivity|]. intros Hy.
  pose proof (lstrip_head _ _ _ Hy) as Hc.
  unfold rstrip. cbn [rev].
  rewrite (lstrip_keeps_end (rev t) [] c Hc), rev_app_distr.
  cbn [rev app lstrip]. rewrite Hc. reflexivity.
Qed.

Lemma strip_idem (s : str) : strip (strip s) = strip s.
Proof.
  unfold strip. rewrite (lstrip_rstrip (lstrip s) (lstrip_idem s)).
  apply rstrip_idem.
Qed.

Lemma lstrip_replace (s : str) :
  lstrip (replace backslash slash s) = replace backslash slash (lstrip s).
Proof.
  unfold replace. induction s as [|x s IH]; simpl; [reflexivity|].
  destruct (N.eqb x backslash) eqn:E.
  - apply N.eqb_eq in E; subst x. reflexivity.
  - destruct (is_space x); [exact IH|]. simpl. rewrite E. reflexivity.
Qed.

Lemma replace_rev (s : str) :
  replace backslash slash (rev s) = rev (replace backslash slash s).
Proof. unfold replace. apply map_rev. Qed.

Lemma strip_replace (s : str) :
  strip (replace backslash slash s) = replace backslash slash (strip s).
Proof.
  unfold strip, rstrip.
  rewrite lstrip_replace, <- replace_rev, lstrip_replace, <- replace_rev.
  reflexivity.
Qed.

Lemma block_at_clean_key (lines : list str) (i : nat) (raw p c : str)
    (v : bool) (k : nat) :
  block_at lines i raw = Some (p, c, v, k) ->
  ~ In star p /\ ~ In bullet p /\ strip p = p.
Proof.
  unfold block_at.
  destruct (FILE_PATH_PATTERN_match (strip raw)) as [raw_header|] eqn:Hm;
    [|discriminate].
  destruct (is_valid_path (candidate_path raw_header)); [|discriminate].
  destruct (find_fence (skipn (S i) lines) (S i)) as [j|]; [|discriminate].
  destruct (collect (skipn (S j) lines) (S j)) as [code_content k0].
  intros E; inversion E; subst. clear E.
  apply header_text_star_free in Hm.
  assert (Hsub : forall x, In x (candidate_path raw_header) ->
                           In x (split_first [bullet] raw_header)).
  { intros x Hx. unfold candidate_path in Hx.
    apply strip_subset, split_first_subset, strip_subset in Hx. exact Hx. }
  assert (Hrep : forall x, x <> slash ->
                   In x (replace backslash slash (candidate_path raw_header)) ->
                   In x (candidate_path raw_header)).
  { intros x Hx Hin. unfold replace in Hin. apply in_map_iff in Hin.
    destruct Hin as [y [Ey Hy]]. cbv beta in Ey.
    destruct (N.eqb y backslash); [congruence | subst; assumption]. }
  split; [|split].
  - intros Hin. apply Hrep in Hin; [|discriminate].
    apply Hsub, split_first_subset in Hin. contradiction.
  - intros Hin. apply Hrep in Hin; [|discriminate].
    apply Hsub in Hin. exact (split_first_bullet_free _ Hin).
  - rewrite strip_replace. f_equal. unfold candidate_path. apply strip_idem.
Qed.

(** X19: a key of the extracted mapping is never empty, holds neither a
    star nor the version separator, and has no white space at its ends. *)
Theorem keys_are_clean (lines : list str) (key : str) :
  In key (dict_keys (artifacts (extract_lines lines))) ->
  key <> [] /\ ~ In star key /\ ~ In bullet key /\ strip key = key.
Proof.
  intros Hin.
  pose proof (run_keys
                (fun p => (In dot p \/ In slash p)
                          /\ ~ In star p /\ ~ In bullet p /\ strip p = p)
                lines) as K.
  assert (Hall : Forall (fun p => (In dot p \/ In slash p)
                                  /\ ~ In star p /\ ~ In bullet p /\ strip p = p)
                   (dict_keys (artifacts (extract_lines lines)))).
  { apply (K (fun i raw p c v k B =>
                conj (proj2 (block_at_key _ _ _ _ _ _ _ B))
                     (block_at_clean_key _ _ _ _ _ _ _ B))
             (length lines) 0); [lia | constructor]. }
  rewrite Forall_forall in Hall. destruct (Hall key Hin) as [Hd Hrest].
  split; [|exact Hrest]. intros ->. destruct Hd as [[]|[]].
Qed.

Lemma keys_are_clean_witness :
  lit "src/app.py" <> [] /\ ~ In star (lit "src/app.py")
  /\ ~ In bullet (lit "src/app.py") /\ strip (lit "src/app.py") = lit "src/app.py".
Proof.
  apply (keys_are_clean doc_versioned (lit "src/app.py")).
  vm_compute. left; reflexivity.
Defined.

(** ** Two runs *)

(** On a host where no file can be written, the error line shows the
    file's own path, with the base directory and the host's separators,
    while the empty-files list holds the relative path with slashes. *)
Example error_line_shows_file_path :
  console (fst (@create_project_from_yaml ReadOnlyHost.h tree_src_foo []
                  [lit "root"] [lit "root"] ReadOnlyHost.start))
  = [CreatingDirectory (lit "src"); ErrorCreatingFile (lit "root\src\foo.ts")]
  /\ empty_files (fst (@create_project_from_yaml ReadOnlyHost.h tree_src_foo []
                         [lit "root"] [lit "root"] ReadOnlyHost.start))
     = [lit "src/foo.ts"].
Proof. vm_compute. split; reflexivity. Qed.

(** A run of [main] with a document, a structure file and an output
    directory. *)
Example main_with_tree :
  snd (fst (main WinHost.h
              (WinPlatform.p [(lit "tree.yaml", WinPlatform.tree_yaml)])
              args_tree [(lit "notes.md", WinPlatform.notes_md)]))
  = [ProcessingMarkdown (lit "notes.md");
     Said (FoundArtifact (lit "a.txt") false);
     OutputDirectory (lit "C:\work\out");
     UsingYaml (lit "tree.yaml");
     ScaffoldingIn (lit "out\proj");
     Said (CreatedFile (lit "a.txt") SrcArtifact);
     Said (CreatedFile (lit "b.txt") SrcEmpty);
     SummaryHeader; EmptyFilesWarning; EmptyFile (lit "b.txt"); Done].
Proof. vm_compute. reflexivity. Qed.
